(** * Pando loom: checkout and three-way merge (src/components/loom.ts)

    A shallow embedding of the [Loom] class: the snapshot walk
    [buildSnapshotCIDS], the lowest-common-ancestor loop of [merge], the
    tree merge [mergeTrees], the working-directory reconciliation
    [updateWorkingDirectory], [snapshot], [checkout] and [merge].

    JavaScript objects that the source enumerates with [for ... in] are
    association lists in insertion order; the object store, the branch
    registry and the working directory are finite maps.  A JavaScript
    exception is an explicit outcome, and the loom state that was reached
    when it was thrown is kept, so that the effects of a failed operation
    can be stated. *)

From stdpp Require Import base option list strings gmap.
Open Scope string_scope.
Set Warnings "-register-all".

(** ** JavaScript values and outcomes *)

Definition CID := string.

(** What a JavaScript expression evaluates to in the places where the
    source stores either a CID string, a link object [{ '/': cid }] or
    nothing. *)
Inductive JsVal :=
| VUndefined
| VStr (s : string)
| VLink (c : CID).

Inductive JsError :=
| TypeError (what : string)      (* property read or write on [undefined] *)
| Error (msg : string)           (* [throw new Error(msg)] *)
| MissingObject (v : JsVal)      (* the object store cannot resolve [v] *)
| CorruptObject (c : CID).       (* a snapshot stored where a tree or file is linked *)

Inductive Outcome (A : Type) :=
| Returned (a : A)
| Thrown (e : JsError)
| OutOfFuel.
Arguments Returned {A} a.
Arguments Thrown {A} e.
Arguments OutOfFuel {A}.

Definition returned {A} (o : Outcome A) : bool :=
  match o with Returned _ => true | _ => false end.

Definition thrown {A} (o : Outcome A) : bool :=
  match o with Thrown _ => true | _ => false end.

(** [a === b] on the values above, as [indexOf] applies it.  A link is an
    object, and [===] on objects is identity: the links that meet in
    [indexOf] come out of different [node.get] calls, each of which
    decodes an object of its own, so a link is never [===] to another
    value, whatever the CIDs. *)
Definition js_eqb (a b : JsVal) : bool :=
  match a, b with
  | VUndefined, VUndefined => true
  | VStr s, VStr t => bool_decide (s = t)
  | _, _ => false
  end.

(** ** IPLD nodes *)

(** A tree node as the store hands it out: the reserved keys ['@type'] and
    ['path'], then one link per child name, in insertion order. *)
Record TreeObj := mkTreeObj {
  tree_type : option string;
  tree_path : option string;
  tree_children : list (string * CID)
}.

(** The [parents] field of a stored snapshot, as a JavaScript value. *)
Inductive ParentsField :=
| ParentsAbsent                       (* the key is missing: [undefined] *)
| ParentsString (s : string)          (* a string, e.g. ['undefined'] *)
| ParentsLinks (ps : list CID).       (* an array of links *)

Record SnapshotObj := mkSnapshotObj {
  snap_author : string;
  snap_message : string;
  snap_tree : CID;
  snap_parents : ParentsField
}.

Record FileObj := mkFileObj {
  file_path : string;
  file_link : CID
}.

Inductive IpldNode :=
| NSnapshot (s : SnapshotObj)
| NTree (t : TreeObj)
| NFile (f : FileObj).

Definition Store := gmap CID IpldNode.

(** ** Object property access *)

(** The own property [k] of an object, given as its own enumerable
    properties in insertion order. *)
Fixpoint obj_get (o : list (string * CID)) (k : string) : option CID :=
  match o with
  | [] => None
  | (k', v) :: o' => if bool_decide (k' = k) then Some v else obj_get o' k
  end.

(** The names every plain object inherits from [Object.prototype]. *)
Definition object_prototype_members : list string :=
  [ "constructor"; "__defineGetter__"; "__defineSetter__"; "hasOwnProperty";
    "__lookupGetter__"; "__lookupSetter__"; "isPrototypeOf";
    "propertyIsEnumerable"; "toString"; "valueOf"; "__proto__";
    "toLocaleString" ].

(** What [o[k]] evaluates to on a tree object: the link stored under the
    own key [k]; failing that, the member inherited under that name, which
    is truthy and has no ['/'] property; failing that, [undefined]. *)
Inductive JsProp :=
| POwn (c : CID)
| PInherited
| PAbsent.

Definition js_prop (o : list (string * CID)) (k : string) : JsProp :=
  match obj_get o k with
  | Some c => POwn c
  | None => if bool_decide (k ∈ object_prototype_members) then PInherited else PAbsent
  end.

(** *** The order of [for ... in] *)

Definition digit_value (c : Ascii.ascii) : option N :=
  let n := Ascii.N_of_ascii c in
  if (48 <=? n)%N && (n <=? 57)%N then Some (n - 48)%N else None.

Fixpoint digits_value (s : string) (acc : N) : option N :=
  match s with
  | EmptyString => Some acc
  | String c s' =>
      match digit_value c with
      | Some d => digits_value s' (acc * 10 + d)%N
      | None => None
      end
  end.

(** The array index a property name stands for, if it is one: a decimal
    numeral without leading zero, below 2^32 - 1. *)
Definition array_index (k : string) : option N :=
  match k with
  | EmptyString => None
  | String c rest =>
      if bool_decide (c = Ascii.ascii_of_nat 48) && negb (bool_decide (rest = EmptyString))
      then None
      else
        match digits_value k 0 with
        | Some n => if (n <? 4294967295)%N then Some n else None
        | None => None
        end
  end.

Fixpoint insert_index (i : N) (kv : string * CID) (l : list (N * (string * CID)))
  : list (N * (string * CID)) :=
  match l with
  | [] => [(i, kv)]
  | (j, kv') :: l' =>
      if (i <? j)%N then (i, kv) :: (j, kv') :: l' else (j, kv') :: insert_index i kv l'
  end.

(** The properties whose names are array indices, in ascending order. *)
Fixpoint indexed_entries (o : list (string * CID)) : list (N * (string * CID)) :=
  match o with
  | [] => []
  | kv :: o' =>
      match array_index kv.1 with
      | Some i => insert_index i kv (indexed_entries o')
      | None => indexed_entries o'
      end
  end.

(** The other properties, in insertion order. *)
Fixpoint named_entries (o : list (string * CID)) : list (string * CID) :=
  match o with
  | [] => []
  | kv :: o' =>
      match array_index kv.1 with
      | Some _ => named_entries o'
      | None => kv :: named_entries o'
      end
  end.

(** The own properties of [o] in the order [for (k in o)] visits them. *)
Definition for_in_entries (o : list (string * CID)) : list (string * CID) :=
  (map snd (indexed_entries o) ++ named_entries o)%list.

Definition for_in_keys (o : list (string * CID)) : list string :=
  map fst (for_in_entries o).

(** [delete o[k]] *)
Fixpoint obj_delete (o : list (string * CID)) (k : string) : list (string * CID) :=
  match o with
  | [] => []
  | (k', v) :: o' =>
      if bool_decide (k' = k) then obj_delete o' k else (k', v) :: obj_delete o' k
  end.

(** [o[k] = v]: an existing key keeps its place, a new key goes last. *)
Fixpoint obj_set (o : list (string * CID)) (k : string) (v : CID) : list (string * CID) :=
  match o with
  | [] => [(k, v)]
  | (k', v') :: o' =>
      if bool_decide (k' = k) then (k, v) :: o' else (k', v') :: obj_set o' k v
  end.

(** [delete t['@type']; delete t['path']] *)
Definition delete_meta (t : TreeObj) : TreeObj :=
  mkTreeObj None None (tree_children t).

Definition tree_delete (t : TreeObj) (k : string) : TreeObj :=
  mkTreeObj (tree_type t) (tree_path t) (obj_delete (tree_children t) k).

(** [target[k] = v] where [target] is a local that may still be
    [undefined]. *)
Definition js_assign (target : option (list (string * CID))) (k : string) (v : CID)
  : Outcome (option (list (string * CID))) :=
  match target with
  | None => Thrown (TypeError ("Cannot set property '" ++ k ++ "' of undefined"))
  | Some o => Returned (Some (obj_set o k v))
  end.

(** ** The object store adapter *)

(** Modelled from the spec: [node.get(cid)] of the missing component
    [@components/node]; a value the store cannot resolve raises
    [MissingObject].  A CID may be given as a string or as a link. *)
Definition node_get (node : Store) (v : JsVal) : Outcome IpldNode :=
  match v with
  | VUndefined => Thrown (MissingObject v)
  | VStr c | VLink c =>
      match node !! c with
      | Some n => Returned n
      | None => Thrown (MissingObject v)
      end
  end.

(** Modelled from the spec: [node.get(cid, '@type')], the selector read of
    the reserved key. *)
Definition node_get_type (node : Store) (c : CID) : Outcome string :=
  match node_get node (VStr c) with
  | Returned (NSnapshot _) => Returned "snapshot"
  | Returned (NTree _) => Returned "tree"
  | Returned (NFile _) => Returned "file"
  | Thrown e => Thrown e
  | OutOfFuel => OutOfFuel
  end.

(** Modelled from the spec: [node.get(cid)] where the caller goes on to use
    the result as a tree object.  A file node read this way is an object
    whose only key besides the reserved ones is [link]. *)
Definition node_get_tree (node : Store) (c : CID) : Outcome TreeObj :=
  match node_get node (VStr c) with
  | Returned (NTree t) => Returned t
  | Returned (NSnapshot _) => Thrown (CorruptObject c)
  | Returned (NFile f) => Returned (mkTreeObj (Some "file") (Some (file_path f)) [("link", file_link f)])
  | Thrown e => Thrown e
  | OutOfFuel => OutOfFuel
  end.

(** Modelled from the spec: [node.get(cid, 'tree')], the selector read that
    follows the [tree] link of a snapshot. *)
Definition node_get_snapshot_tree (node : Store) (v : JsVal) : Outcome TreeObj :=
  match node_get node v with
  | Returned (NSnapshot s) => node_get_tree node (snap_tree s)
  | Returned _ => Thrown (MissingObject v)
  | Thrown e => Thrown e
  | OutOfFuel => OutOfFuel
  end.

(** Modelled from the spec: [node.get(cid, 'path')]. *)
Definition node_get_path (node : Store) (c : CID) : Outcome string :=
  match node_get node (VStr c) with
  | Returned (NTree t) =>
      match tree_path t with
      | Some p => Returned p
      | None => Thrown (MissingObject (VStr c))
      end
  | Returned (NFile f) => Returned (file_path f)
  | Returned (NSnapshot _) => Thrown (CorruptObject c)
  | Thrown e => Thrown e
  | OutOfFuel => OutOfFuel
  end.

(** Modelled from the spec: [node.download(cid, { cacheOnly: true })], the
    raw content behind a CID, read without writing to the working
    directory.  Content is identified with its CID. *)
Definition node_download_cached (node : Store) (c : CID) : Outcome string :=
  match node_get node (VStr c) with
  | Returned _ => Returned c
  | Thrown e => Thrown e
  | OutOfFuel => OutOfFuel
  end.

(** ** mergeTrees (loom.ts, lines 334-404) *)

(** The tuple [mergeResult]: flag, report, merged tree; each slot holds
    whatever the corresponding local held. *)
Record MergeResult := mkMergeResult {
  mergeFlag : option string;
  mergeReport : option string;
  mergeTree : option (list (string * CID))
}.

(** What a call of [mergeTrees] leaves behind: its outcome and the three
    argument objects as the call mutated them. *)
Record MergeCall := mkMergeCall {
  call_outcome : Outcome MergeResult;
  call_origin : TreeObj;
  call_destination : TreeObj;
  call_lca : TreeObj
}.

(** [mergeResult[0] = mergeFlag; mergeResult[1] = mergeReport;
    mergeResult[2] = mergeTree; return mergeResult] for the local
    [mergeResult], which may still be [undefined]. *)
Definition fill_mergeResult (mergeResult : option MergeResult)
    (flag report : option string) (tree : option (list (string * CID)))
  : Outcome MergeResult :=
  match mergeResult with
  | None => Thrown (TypeError "Cannot set property '0' of undefined")
  | Some _ => Returned (mkMergeResult flag report tree)
  end.

(** The file case of the loop body (lines 362-377): no common ancestor
    entry throws, otherwise the three contents are read and handed to the
    text merge, whose result is only logged.  [l] is what
    [_lcaTree[entry]] evaluates to. *)
Definition merge_file_entry (node : Store) (entry : string)
    (o d : CID) (l : JsProp) : Outcome unit :=
  match l with
  | PAbsent =>
      Thrown (Error ("We can't perform a three way merge for " ++ entry ++
        ". There's no common ancestor in the branch node. Please choose wich file you wan't to keep manually"))
  | PInherited =>
      match node_download_cached node o with
      | Returned _ => Thrown (MissingObject VUndefined)
      | Thrown e => Thrown e
      | OutOfFuel => OutOfFuel
      end
  | POwn lc =>
      match node_download_cached node o with
      | Returned _ =>
          match node_download_cached node lc with
          | Returned _ =>
              match node_download_cached node d with
              | Returned _ => Returned tt
              | Thrown e => Thrown e
              | OutOfFuel => OutOfFuel
              end
          | Thrown e => Thrown e
          | OutOfFuel => OutOfFuel
          end
      | Thrown e => Thrown e
      | OutOfFuel => OutOfFuel
      end
  end.

Section MergeLoop.
(** The recursive call [this.mergeTrees(originEntry, destinationEntry,
    lcaEntry)]. *)
Variable recurse : TreeObj -> TreeObj -> TreeObj -> MergeCall.
Variable node : Store.
Variable _destinationTree _lcaTree : TreeObj.

(** The tree case of the loop body (lines 380-387). *)
Definition merge_tree_entry (entry : string) (o d : CID) : Outcome unit :=
  match node_get_tree node o with
  | Returned originEntry =>
      match node_get_tree node d with
      | Returned destinationEntry =>
          match js_prop (tree_children _lcaTree) entry with
          | PAbsent => Thrown (TypeError "Cannot read property '/' of undefined")
          | PInherited => Thrown (MissingObject VUndefined)
          | POwn lc =>
              match node_get_tree node lc with
              | Returned lcaEntry =>
                  match call_outcome (recurse originEntry destinationEntry lcaEntry) with
                  | Returned _ => Returned tt
                  | Thrown e => Thrown e
                  | OutOfFuel => OutOfFuel
                  end
              | Thrown e => Thrown e
              | OutOfFuel => OutOfFuel
              end
          end
      | Thrown e => Thrown e
      | OutOfFuel => OutOfFuel
      end
  | Thrown e => Thrown e
  | OutOfFuel => OutOfFuel
  end.

(** One pass of the body of [for (let entry in _destinationTree)]
    (lines 348-389) for the key [entry]: the origin tree and the local
    [mergeTree] after the pass. *)
Definition merge_entry (entry : string) (_originTree : TreeObj)
    (mergeTree : option (list (string * CID)))
  : Outcome (option (list (string * CID))) * TreeObj :=
  match obj_get (tree_children _destinationTree) entry with
  | None => (Returned mergeTree, _originTree)
  | Some d =>
      match js_prop (tree_children _originTree) entry with
      | PAbsent =>
          match js_assign mergeTree entry d with
          | Returned mt => (Returned mt, tree_delete _originTree entry)
          | Thrown e => (Thrown e, _originTree)
          | OutOfFuel => (OutOfFuel, _originTree)
          end
      | PInherited =>
          (* the inherited member has no ['/']: the links differ, and the
             type of [undefined] is asked of the store *)
          (Thrown (MissingObject VUndefined), _originTree)
      | POwn o =>
          if bool_decide (d = o) then (Returned mergeTree, _originTree)
          else
            match node_get_type node o with
            | Returned originEntryType =>
                match node_get_type node d with
                | Returned destinationEntryType =>
                    if negb (bool_decide (originEntryType = destinationEntryType))
                    then (js_assign mergeTree entry d, _originTree)
                    else if bool_decide (originEntryType = "file")
                    then
                      match merge_file_entry node entry o d
                              (js_prop (tree_children _lcaTree) entry) with
                      | Returned _ => (Returned mergeTree, _originTree)
                      | Thrown e => (Thrown e, _originTree)
                      | OutOfFuel => (OutOfFuel, _originTree)
                      end
                    else if bool_decide (originEntryType = "tree")
                    then
                      match merge_tree_entry entry o d with
                      | Returned _ => (Returned mergeTree, _originTree)
                      | Thrown e => (Thrown e, _originTree)
                      | OutOfFuel => (OutOfFuel, _originTree)
                      end
                    else (Returned mergeTree, _originTree)
                | Thrown e => (Thrown e, _originTree)
                | OutOfFuel => (OutOfFuel, _originTree)
                end
            | Thrown e => (Thrown e, _originTree)
            | OutOfFuel => (OutOfFuel, _originTree)
            end
      end
  end.

(** The loop over the keys of [_destinationTree]. *)
Fixpoint merge_loop (entries : list string) (_originTree : TreeObj)
    (mergeTree : option (list (string * CID)))
  : Outcome (option (list (string * CID))) * TreeObj :=
  match entries with
  | [] => (Returned mergeTree, _originTree)
  | entry :: rest =>
      match merge_entry entry _originTree mergeTree with
      | (Returned mt, o') => merge_loop rest o' mt
      | stop => stop
      end
  end.
End MergeLoop.

Fixpoint mergeTrees (fuel : nat) (node : Store)
    (_originTree _destinationTree _lcaTree : TreeObj) : MergeCall :=
  match fuel with
  | 0 => mkMergeCall OutOfFuel _originTree _destinationTree _lcaTree
  | S fuel' =>
      let o := delete_meta _originTree in
      let d := delete_meta _destinationTree in
      let l := delete_meta _lcaTree in
      (* let mergeResult, mergeTree, mergeFlag, mergeReport *)
      let mergeResult : option MergeResult := None in
      let mergeTree0 : option (list (string * CID)) := None in
      let mergeFlag0 : option string := None in
      let mergeReport0 : option string := None in
      match merge_loop (mergeTrees fuel' node) node d l
              (for_in_keys (tree_children d)) o mergeTree0 with
      | (Returned mt, o') =>
          mkMergeCall (fill_mergeResult mergeResult mergeFlag0 mergeReport0 mt) o' d l
      | (Thrown e, o') => mkMergeCall (Thrown e) o' d l
      | (OutOfFuel, o') => mkMergeCall OutOfFuel o' d l
      end
  end.

(** ** Paths and the working directory *)

(** [file.split(path.sep)] *)
Fixpoint split_sep (s cur : string) : list string :=
  match s with
  | EmptyString => [cur]
  | String c s' =>
      if bool_decide (c = Ascii.ascii_of_nat 47) then cur :: split_sep s' ""
      else split_sep s' (cur ++ String c EmptyString)
  end.

(** The segments of a path after the empty and ['.'] segments are dropped
    and each ['..'] has taken back the segment before it; [kept] holds the
    segments kept so far, last first. *)
Fixpoint normalize_segments (segments kept : list string) (absolute : bool) : list string :=
  match segments with
  | [] => rev kept
  | seg :: rest =>
      if bool_decide (seg = "") || bool_decide (seg = ".")
      then normalize_segments rest kept absolute
      else if bool_decide (seg = "..")
      then
        match kept with
        | last :: kept' =>
            if bool_decide (last = "..")
            then normalize_segments rest (".." :: kept) absolute
            else normalize_segments rest kept' absolute
        | [] =>
            if absolute then normalize_segments rest [] absolute
            else normalize_segments rest [".."] absolute
        end
      else normalize_segments rest (seg :: kept) absolute
  end.

Definition starts_with_sep (p : string) : bool :=
  match p with
  | String c _ => bool_decide (c = Ascii.ascii_of_nat 47)
  | EmptyString => false
  end.

Fixpoint ends_with_sep (p : string) : bool :=
  match p with
  | EmptyString => false
  | String c EmptyString => bool_decide (c = Ascii.ascii_of_nat 47)
  | String _ p' => ends_with_sep p'
  end.

(** [path.normalize(p)] of POSIX paths. *)
Definition path_normalize (p : string) : string :=
  if bool_decide (p = "") then "."
  else
    let absolute := starts_with_sep p in
    let trailing := ends_with_sep p in
    let body := String.concat "/" (normalize_segments (split_sep p "") [] absolute) in
    if bool_decide (body = "")
    then (if absolute then "/" else if trailing then "./" else ".")
    else
      let body := if trailing then body ++ "/" else body in
      if absolute then "/" ++ body else body.

(** [path.join(parent, name)]: the non-empty arguments joined with ['/'],
    then normalised. *)
Definition path_join (parent name : string) : string :=
  let joined :=
    if bool_decide (parent = "") then name
    else if bool_decide (name = "") then parent
    else parent ++ "/" ++ name in
  if bool_decide (joined = "") then "." else path_normalize joined.

(** The working directory: the content found at each path.  Content is
    identified with the CID of its bytes. *)
Definition WorkDir := gmap string CID.

(** Modelled from the spec: [utils.fs.rm], which removes a path and what
    lies under it. *)
Definition fs_rm (wd : WorkDir) (p : string) : WorkDir :=
  filter (fun kv => kv.1 <> p /\ String.prefix (p ++ "/") kv.1 = false) wd.

(** Modelled from the spec: [node.download(cid)], which writes the file
    behind [cid], or every file below the tree behind [cid], into the
    working directory. *)
Fixpoint node_download (fuel : nat) (node : Store) (c : CID) (wd : WorkDir)
  : Outcome unit * WorkDir :=
  match fuel with
  | 0 => (OutOfFuel, wd)
  | S fuel' =>
      match node_get node (VStr c) with
      | Returned (NFile f) => (Returned tt, <[file_path f := file_link f]> wd)
      | Returned (NTree t) =>
          (fix children (cs : list (string * CID)) (wd : WorkDir) :=
             match cs with
             | [] => (Returned tt, wd)
             | (_, child) :: cs' =>
                 match node_download fuel' node child wd with
                 | (Returned _, wd') => children cs' wd'
                 | stop => stop
                 end
             end) (tree_children t) wd
      | Returned (NSnapshot _) => (Thrown (CorruptObject c), wd)
      | Thrown e => (Thrown e, wd)
      | OutOfFuel => (OutOfFuel, wd)
      end
  end.

(** ** The index *)

(** Modelled from the spec: an entry of the missing component
    [@components/index]; the empty string is the empty CID. *)
Record IndexEntry := mkIndexEntry {
  ie_wdir : CID;
  ie_stage : CID;
  ie_repo : CID
}.

Definition Index := list (string * IndexEntry).

Fixpoint index_get (ix : Index) (p : string) : option IndexEntry :=
  match ix with
  | [] => None
  | (q, e) :: ix' => if bool_decide (q = p) then Some e else index_get ix' p
  end.

Fixpoint index_set (ix : Index) (p : string) (e : IndexEntry) : Index :=
  match ix with
  | [] => [(p, e)]
  | (q, e') :: ix' =>
      if bool_decide (q = p) then (p, e) :: ix' else (q, e') :: index_set ix' p e
  end.

(** Modelled from the spec: [index.update()] rescans the working
    directory, recomputing [wdir] and preserving [stage] and [repo]; a path
    found on disk and not yet in the index enters it untracked. *)
Definition index_update (ix : Index) (wd : WorkDir) : Index :=
  let rescanned :=
    map (fun pe : string * IndexEntry =>
           (pe.1, mkIndexEntry (default "" (wd !! pe.1)) (ie_stage pe.2) (ie_repo pe.2))) ix in
  let fresh : list (string * IndexEntry) :=
    omap (fun kv : string * CID =>
            match index_get ix kv.1 with
            | Some _ => None
            | None => Some (kv.1, mkIndexEntry kv.2 "" "")
            end) (map_to_list wd) in
  (rescanned ++ fresh)%list.

(** Modelled from the spec: staged = unsnapshot =
    { p : stage(p) nonempty and stage(p) <> repo(p) }. *)
Definition index_unsnapshot (ix : Index) : list string :=
  omap (fun pe : string * IndexEntry =>
          if negb (bool_decide (ie_stage pe.2 = "")) &&
             negb (bool_decide (ie_stage pe.2 = ie_repo pe.2))
          then Some pe.1 else None) ix.

Definition index_staged := index_unsnapshot.

(** Modelled from the spec: modified =
    { p : wdir(p) <> stage(p), or stage(p) empty while wdir(p) <> repo(p) }. *)
Definition index_modified (ix : Index) : list string :=
  omap (fun pe : string * IndexEntry =>
          if negb (bool_decide (ie_wdir pe.2 = ie_stage pe.2)) ||
             (bool_decide (ie_stage pe.2 = "") &&
              negb (bool_decide (ie_wdir pe.2 = ie_repo pe.2)))
          then Some pe.1 else None) ix.

(** Modelled from the spec: [index.reinitialize(tree)] replaces the index
    from a tree: every file below it gets [repo = stage = wdir = link]. *)
Fixpoint index_collect (fuel : nat) (node : Store) (cs : list (string * CID)) (ix : Index)
  : Outcome Index :=
  match fuel with
  | 0 => OutOfFuel
  | S fuel' =>
      match cs with
      | [] => Returned ix
      | (_, c) :: cs' =>
          match node_get node (VStr c) with
          | Returned (NFile f) =>
              index_collect fuel' node cs'
                (index_set ix (file_path f)
                   (mkIndexEntry (file_link f) (file_link f) (file_link f)))
          | Returned (NTree t) =>
              match index_collect fuel' node (tree_children t) ix with
              | Returned ix' => index_collect fuel' node cs' ix'
              | stop => stop
              end
          | Returned (NSnapshot _) => Thrown (CorruptObject c)
          | Thrown e => Thrown e
          | OutOfFuel => OutOfFuel
          end
      end
  end.

Definition index_reinitialize (fuel : nat) (node : Store) (tree : list (string * CID))
  : Outcome Index :=
  index_collect fuel node tree [].

(** ** The snapshot walk and the common-ancestor loop *)

(** [snapshot.parents] of whatever [node.get] returned. *)
Definition parents_of (n : IpldNode) : ParentsField :=
  match n with
  | NSnapshot s => snap_parents s
  | NTree _ | NFile _ => ParentsAbsent
  end.

(** [snapshot.parents[0]] *)
Definition first_parent (p : ParentsField) : Outcome JsVal :=
  match p with
  | ParentsAbsent => Thrown (TypeError "Cannot read property '0' of undefined")
  | ParentsString EmptyString => Returned VUndefined
  | ParentsString (String c _) => Returned (VStr (String c EmptyString))
  | ParentsLinks [] => Returned VUndefined
  | ParentsLinks (c :: _) => Returned (VLink c)
  end.

(** [buildSnapshotCIDS] (lines 312-325); [snapshotCIDs] is the array built
    so far. *)
Fixpoint buildSnapshotCIDS_loop (fuel : nat) (node : Store) (snapshot : IpldNode)
    (snapshotCIDs : list JsVal) : Outcome (list JsVal) :=
  match fuel with
  | 0 => OutOfFuel
  | S fuel' =>
      match parents_of snapshot with
      | ParentsString "undefined" => Returned (snapshotCIDs ++ [VStr "undefined"])%list
      | parents =>
          match first_parent parents with
          | Returned p0 =>
              match node_get node p0 with
              | Returned next =>
                  buildSnapshotCIDS_loop fuel' node next (snapshotCIDs ++ [p0])%list
              | Thrown e => Thrown e
              | OutOfFuel => OutOfFuel
              end
          | Thrown e => Thrown e
          | OutOfFuel => OutOfFuel
          end
      end
  end.

Definition buildSnapshotCIDS (fuel : nat) (node : Store) (_snapshot : IpldNode)
  : Outcome (list JsVal) :=
  buildSnapshotCIDS_loop fuel node _snapshot [].

(** The loop of [merge] that picks [lcaCID] (lines 185-191): the first
    entry of the origin array that [indexOf] finds in the destination
    array; [undefined] when there is none. *)
Fixpoint find_lcaCID (originSnapshotCIDs destinationSnapshotCIDs : list JsVal) : JsVal :=
  match originSnapshotCIDs with
  | [] => VUndefined
  | entry :: rest =>
      if existsb (js_eqb entry) destinationSnapshotCIDs then entry
      else find_lcaCID rest destinationSnapshotCIDs
  end.

(** ** updateWorkingDirectory (lines 406-448) *)

Record UpdateCall := mkUpdateCall {
  upd_outcome : Outcome unit;
  upd_base : TreeObj;
  upd_new : TreeObj;
  upd_wdir : WorkDir
}.

Section UpdateLoop.
Variable recurse : TreeObj -> TreeObj -> WorkDir -> UpdateCall.
Variable fuel : nat.
Variable node : Store.
Variable _newTree : TreeObj.

(** The body of [for (let entry in _newTree)]. *)
Definition update_entry (entry : string) (_baseTree : TreeObj) (wd : WorkDir)
  : Outcome unit * TreeObj * WorkDir :=
  match obj_get (tree_children _newTree) entry with
  | None => (Returned tt, _baseTree, wd)
  | Some n =>
      match js_prop (tree_children _baseTree) entry with
      | PAbsent =>
          match node_download fuel node n wd with
          | (Returned _, wd') => (Returned tt, tree_delete _baseTree entry, wd')
          | (stop, wd') => (stop, _baseTree, wd')
          end
      | PInherited =>
          (* the inherited member has no ['/']: the links differ, and the
             type of [undefined] is asked of the store *)
          (Thrown (MissingObject VUndefined), _baseTree, wd)
      | POwn b =>
          if bool_decide (b = n)
          then (Returned tt, tree_delete _baseTree entry, wd)
          else
            match node_get_type node b with
            | Returned baseEntryType =>
                match node_get_type node n with
                | Returned newEntryType =>
                    if negb (bool_decide (baseEntryType = newEntryType)) ||
                       bool_decide (baseEntryType = "file")
                    then
                      match node_download fuel node n wd with
                      | (Returned _, wd') => (Returned tt, tree_delete _baseTree entry, wd')
                      | (stop, wd') => (stop, _baseTree, wd')
                      end
                    else if bool_decide (baseEntryType = "tree")
                    then
                      match node_get_tree node b with
                      | Returned baseEntry =>
                          match node_get_tree node n with
                          | Returned newEntry =>
                              let sub := recurse baseEntry newEntry wd in
                              match upd_outcome sub with
                              | Returned _ =>
                                  (Returned tt, tree_delete _baseTree entry, upd_wdir sub)
                              | stop => (stop, _baseTree, upd_wdir sub)
                              end
                          | Thrown e => (Thrown e, _baseTree, wd)
                          | OutOfFuel => (OutOfFuel, _baseTree, wd)
                          end
                      | Thrown e => (Thrown e, _baseTree, wd)
                      | OutOfFuel => (OutOfFuel, _baseTree, wd)
                      end
                    else (Returned tt, tree_delete _baseTree entry, wd)
                | Thrown e => (Thrown e, _baseTree, wd)
                | OutOfFuel => (OutOfFuel, _baseTree, wd)
                end
            | Thrown e => (Thrown e, _baseTree, wd)
            | OutOfFuel => (OutOfFuel, _baseTree, wd)
            end
      end
  end.

Fixpoint update_loop (entries : list string) (_baseTree : TreeObj) (wd : WorkDir)
  : Outcome unit * TreeObj * WorkDir :=
  match entries with
  | [] => (Returned tt, _baseTree, wd)
  | entry :: rest =>
      match update_entry entry _baseTree wd with
      | (Returned _, b', wd') => update_loop rest b' wd'
      | stop => stop
      end
  end.

(** [for (let entry in _baseTree)]: delete remaining files. *)
Fixpoint remove_loop (remaining : list (string * CID)) (wd : WorkDir)
  : Outcome unit * WorkDir :=
  match remaining with
  | [] => (Returned tt, wd)
  | (_, b) :: rest =>
      match node_get_path node b with
      | Returned _path => remove_loop rest (fs_rm wd (path_join "." _path))
      | Thrown e => (Thrown e, wd)
      | OutOfFuel => (OutOfFuel, wd)
      end
  end.
End UpdateLoop.

Fixpoint updateWorkingDirectory (fuel : nat) (node : Store)
    (_baseTree _newTree : TreeObj) (wd : WorkDir) : UpdateCall :=
  match fuel with
  | 0 => mkUpdateCall OutOfFuel _baseTree _newTree wd
  | S fuel' =>
      let b := delete_meta _baseTree in
      let n := delete_meta _newTree in
      match update_loop (updateWorkingDirectory fuel' node) fuel' node n
              (for_in_keys (tree_children n)) b wd with
      | (Returned _, b', wd') =>
          match remove_loop node (for_in_entries (tree_children b')) wd' with
          | (out, wd'') => mkUpdateCall out b' n wd''
          end
      | (stop, b', wd') => mkUpdateCall stop b' n wd'
      end
  end.

(** ** The loom *)

Record Loom := mkLoom {
  node : Store;                      (* this.node: the object store *)
  wdir : WorkDir;                    (* the files under paths.root *)
  index : Index;                     (* this.index.current *)
  branches : gmap string string;     (* .pando/branches/<name>: head CID or 'undefined' *)
  currentBranchName : string;        (* .pando/current *)
  author : string                    (* pando.configuration.author *)
}.

Definition set_node (s : Store) (l : Loom) : Loom :=
  mkLoom s (wdir l) (index l) (branches l) (currentBranchName l) (author l).
Definition set_wdir (w : WorkDir) (l : Loom) : Loom :=
  mkLoom (node l) w (index l) (branches l) (currentBranchName l) (author l).
Definition set_index (ix : Index) (l : Loom) : Loom :=
  mkLoom (node l) (wdir l) ix (branches l) (currentBranchName l) (author l).
Definition set_branches (b : gmap string string) (l : Loom) : Loom :=
  mkLoom (node l) (wdir l) (index l) b (currentBranchName l) (author l).
Definition set_currentBranchName (n : string) (l : Loom) : Loom :=
  mkLoom (node l) (wdir l) (index l) (branches l) n (author l).

(** An operation of the loom: its outcome and the loom it leaves, also
    when it throws. *)
Definition Op (A : Type) := Loom -> Outcome A * Loom.

Definition ret {A} (a : A) : Op A := fun l => (Returned a, l).
Definition throw {A} (e : JsError) : Op A := fun l => (Thrown e, l).
Definition bind {A B} (c : Op A) (k : A -> Op B) : Op B :=
  fun l =>
    match c l with
    | (Returned a, l') => k a l'
    | (Thrown e, l') => (Thrown e, l')
    | (OutOfFuel, l') => (OutOfFuel, l')
    end.
Definition lift {A} (o : Outcome A) : Op A := fun l => (o, l).
Definition gets {A} (f : Loom -> A) : Op A := fun l => (Returned (f l), l).
Definition modify (f : Loom -> Loom) : Op unit := fun l => (Returned tt, f l).

Notation "'await' x ':=' c 'in' k" := (bind c (fun x => k))
  (at level 10, x name, c at level 100, k at level 200).
Notation "'exec' c 'in' k" := (bind c (fun _ => k))
  (at level 10, c at level 100, k at level 200).

(** Modelled from the spec: [Branch.exists] and [Branch.head] of the
    missing component [@components/branch]. *)
Definition branch_exists (l : Loom) (name : string) : bool :=
  bool_decide (is_Some (branches l !! name)).

Definition branch_head (name : string) : Op string :=
  fun l =>
    match branches l !! name with
    | Some h => (Returned h, l)
    | None => (Thrown (Error ("Branch " ++ name ++ " does not exist")), l)
    end.

(** [this.head] *)
Definition head : Op string :=
  await name := gets currentBranchName in branch_head name.

(** [this.currentBranch.head = cid] *)
Definition set_head (cid : CID) : Op unit :=
  modify (fun l => set_branches (<[currentBranchName l := cid]> (branches l)) l).

(** [await this.index!.update()] *)
Definition update_index : Op unit :=
  modify (fun l => set_index (index_update (index l) (wdir l)) l).

(** [await this.index!.reinitialize(tree)] *)
Definition reinitialize (fuel : nat) (tree : list (string * CID)) : Op unit :=
  fun l =>
    match index_reinitialize fuel (node l) tree with
    | Returned ix => (Returned tt, set_index ix l)
    | Thrown e => (Thrown e, l)
    | OutOfFuel => (OutOfFuel, l)
    end.

(** [await this.updateWorkingDirectory(base, new)] on the loom. *)
Definition update_wd (fuel : nat) (_baseTree _newTree : TreeObj) : Op unit :=
  fun l =>
    let call := updateWorkingDirectory fuel (node l) _baseTree _newTree (wdir l) in
    (upd_outcome call, set_wdir (upd_wdir call) l).

(** ['' + array]: the elements joined with commas. *)
Definition js_array_to_string (a : list string) : string := String.concat "," a.

(** ** fromIPLD (lines 225-287) *)

(** The [Snapshot], [Tree] and [File] objects that [fromIPLD] builds. *)
Inductive Decoded :=
| DSnapshot (author message : string) (tree : Decoded) (parents : list Decoded)
| DTree (path : option string) (children : list (string * Decoded))
| DFile (path : string) (link : CID).

(** The ['array'] case (lines 255-260) on the [parents] field of a
    snapshot: [for (let child of object[attribute])] followed by
    [object[attribute][child]['/']].  An absent field is not iterable.
    The elements of a non-empty array are links, and an array indexed by
    a link is [undefined].  The elements of a string are its characters,
    and a string indexed by a character is [undefined], or, for a digit
    within its length, a character, whose ['/'] is [undefined] and is
    asked of the store.  Only an empty array or string passes. *)
Definition decode_parents (p : ParentsField) : Outcome (list Decoded) :=
  match p with
  | ParentsAbsent => Thrown (TypeError "undefined is not iterable")
  | ParentsLinks [] => Returned []
  | ParentsLinks (_ :: _) => Thrown (TypeError "Cannot read property '/' of undefined")
  | ParentsString EmptyString => Returned []
  | ParentsString (String c rest) =>
      match array_index (String c EmptyString) with
      | Some i =>
          if (i <? N.of_nat (String.length (String c rest)))%N
          then Thrown (MissingObject VUndefined)
          else Thrown (TypeError "Cannot read property '/' of undefined")
      | None => Thrown (TypeError "Cannot read property '/' of undefined")
      end
  end.

(** Modelled from the spec: the link schema that the missing classes
    [@objects/snapshot], [@objects/tree] and [@objects/file] register for
    [Reflect.getMetadata('ipld', ...)]: the [tree] of a snapshot is a link
    that is followed, [parents] is an ['array'] of links, the children of
    a tree are a ['map'], the [link] of a file is ['direct'], the other
    attributes are plain values; the attributes are visited in the order
    of the schema listing, [tree] before [parents]. *)
Fixpoint fromIPLD (fuel : nat) (node : Store) (object : IpldNode) : Outcome Decoded :=
  match fuel with
  | 0 => OutOfFuel
  | S fuel' =>
      match object with
      | NFile f => Returned (DFile (file_path f) (file_link f))
      | NTree t =>
          match
            (fix children (cs : list (string * CID)) : Outcome (list (string * Decoded)) :=
               match cs with
               | [] => Returned []
               | (child, c) :: cs' =>
                   match node_get node (VStr c) with
                   | Returned n =>
                       match fromIPLD fuel' node n with
                       | Returned d =>
                           match children cs' with
                           | Returned ds => Returned ((child, d) :: ds)
                           | Thrown e => Thrown e
                           | OutOfFuel => OutOfFuel
                           end
                       | Thrown e => Thrown e
                       | OutOfFuel => OutOfFuel
                       end
                   | Thrown e => Thrown e
                   | OutOfFuel => OutOfFuel
                   end
               end) (for_in_entries (tree_children t))
          with
          | Returned ds => Returned (DTree (tree_path t) ds)
          | Thrown e => Thrown e
          | OutOfFuel => OutOfFuel
          end
      | NSnapshot s =>
          match node_get node (VStr (snap_tree s)) with
          | Returned n =>
              match fromIPLD fuel' node n with
              | Returned t =>
                  match decode_parents (snap_parents s) with
                  | Returned ps => Returned (DSnapshot (snap_author s) (snap_message s) t ps)
                  | Thrown e => Thrown e
                  | OutOfFuel => OutOfFuel
                  end
              | Thrown e => Thrown e
              | OutOfFuel => OutOfFuel
              end
          | Thrown e => Thrown e
          | OutOfFuel => OutOfFuel
          end
      end
  end.

(** ** tree (lines 289-310) *)

(** The [Tree] and [File] objects built in memory by [tree()]. *)
Inductive MemNode :=
| MTree (path : string) (children : list (string * MemNode))
| MFile (path : string) (link : CID).

Fixpoint mem_get (cs : list (string * MemNode)) (k : string) : option MemNode :=
  match cs with
  | [] => None
  | (k', v) :: cs' => if bool_decide (k' = k) then Some v else mem_get cs' k
  end.

Fixpoint mem_set (cs : list (string * MemNode)) (k : string) (v : MemNode)
  : list (string * MemNode) :=
  match cs with
  | [] => [(k, v)]
  | (k', v') :: cs' =>
      if bool_decide (k' = k) then (k, v) :: cs' else (k', v') :: mem_set cs' k v
  end.

(** [names.reduce((parent, name) => ..., parent)]: the tree below [parent]
    and the index after the walk along [names]. *)
Fixpoint tree_reduce (names : list string) (parent : MemNode) (ix : Index)
  : Outcome (MemNode * Index) :=
  match names with
  | [] => Returned (parent, ix)
  | name :: rest =>
      match parent with
      | MFile _ _ => Thrown (TypeError ("Cannot read property '" ++ name ++ "' of undefined"))
      | MTree p children =>
          let currentPath := path_join p name in
          let '(child, ix1) :=
            match mem_get children name with
            | Some c => (c, ix)
            | None =>
                match index_get ix currentPath with
                | Some e =>
                    (MFile currentPath (ie_stage e),
                     index_set ix currentPath
                       (mkIndexEntry (ie_wdir e) (ie_stage e) (ie_stage e)))
                | None => (MTree currentPath [], ix)
                end
            end in
          match tree_reduce rest child ix1 with
          | Returned (child', ix2) => Returned (MTree p (mem_set children name child'), ix2)
          | Thrown e => Thrown e
          | OutOfFuel => OutOfFuel
          end
      end
  end.

Fixpoint tree_of_staged (staged : list string) (tree : MemNode) (ix : Index)
  : Outcome (MemNode * Index) :=
  match staged with
  | [] => Returned (tree, ix)
  | file :: rest =>
      match tree_reduce (split_sep file "") tree ix with
      | Returned (tree', ix') => tree_of_staged rest tree' ix'
      | stop => stop
      end
  end.

(** [this.tree()] *)
Definition tree : Op MemNode :=
  fun l =>
    match tree_of_staged (index_staged (index l)) (MTree "." []) (index l) with
    | Returned (t, ix) => (Returned t, set_index ix l)
    | Thrown e => (Thrown e, l)
    | OutOfFuel => (OutOfFuel, l)
    end.

Section LoomOperations.
(** The content identifier the store assigns to a node: a function of
    the node alone. *)
Variable cid_of : IpldNode -> CID.

(** [await this.node!.put(n)] *)
Definition node_put (n : IpldNode) : Op CID :=
  fun l => (Returned (cid_of n), set_node (<[cid_of n := n]> (node l)) l).

(** Modelled from the spec: [tree.put(node)] of the missing class
    [@objects/tree]: the children are stored first, then the tree node
    that links to them. *)
Fixpoint mem_put (n : MemNode) (s : Store) : CID * Store :=
  match n with
  | MFile p link =>
      let nd := NFile (mkFileObj p link) in (cid_of nd, <[cid_of nd := nd]> s)
  | MTree p children =>
      let '(links, s') :=
        (fix put_children (cs : list (string * MemNode)) (s : Store)
           : list (string * CID) * Store :=
           match cs with
           | [] => ([], s)
           | (name, child) :: cs' =>
               let '(c, s1) := mem_put child s in
               let '(rest, s2) := put_children cs' s1 in
               ((name, c) :: rest, s2)
           end) children s in
      let nd := NTree (mkTreeObj (Some "tree") (Some p) links) in
      (cid_of nd, <[cid_of nd := nd]> s')
  end.

Definition tree_put (t : MemNode) : Op CID :=
  fun l => let '(c, s) := mem_put t (node l) in (Returned c, set_node s l).

(** [snapshot] (lines 94-111).  Modelled from the spec: [toIPLD] of the
    missing class [@objects/snapshot] writes the parent decoded by
    [fromIPLD] as a link, and that link is the head it was read from; an
    [undefined] [parents] leaves the key out. *)
Definition snapshot (fuel : nat) (_message : string) : Op SnapshotObj :=
  exec update_index in
  await unsnapshot := gets (fun l => index_unsnapshot (index l)) in
  match unsnapshot with
  | [] => throw (Error "Nothing to snapshot")
  | _ :: _ =>
      await t := tree in
      await treeCID := tree_put t in
      await h := head in
      await parents :=
        (if negb (bool_decide (h = "undefined"))
         then await st := gets node in
              await object := lift (node_get st (VStr h)) in
              exec lift (fromIPLD fuel st object) in
              ret (ParentsLinks [h])
         else ret ParentsAbsent) in
      await a := gets author in
      let snapshot := mkSnapshotObj a _message treeCID parents in
      await cid := node_put (NSnapshot snapshot) in
      exec set_head cid in
      ret snapshot
  end.

(** The empty tree [(new Tree({ path: '.', children: [] })).toIPLD()]. *)
Definition empty_tree : TreeObj := mkTreeObj (Some "tree") (Some ".") [].

(** [checkout] (lines 113-147) *)
Definition checkout (fuel : nat) (_branchName : string) : Op unit :=
  exec update_index in
  await l := gets id in
  if negb (branch_exists l _branchName)
  then throw (Error ("Branch " ++ _branchName ++ " does not exist"))
  else
    match index_unsnapshot (index l), index_modified (index l) with
    | (_ :: _) as unsnapshot, _ =>
        throw (Error ("You have unsnapshot modifications: " ++
                      js_array_to_string unsnapshot))
    | [], (_ :: _) as modified =>
        throw (Error ("You have unstaged and unsnaphot modifications: " ++
                      js_array_to_string modified))
    | [], [] =>
        await newHead := branch_head _branchName in
        await baseHead := head in
        exec
          (if negb (bool_decide (newHead = "undefined"))
           then
             await newTree := lift (node_get_snapshot_tree (node l) (VStr newHead)) in
             await baseTree :=
               (if negb (bool_decide (baseHead = "undefined"))
                then lift (node_get_snapshot_tree (node l) (VStr baseHead))
                else ret empty_tree) in
             exec update_wd fuel baseTree newTree in
             reinitialize fuel (tree_children newTree)
           else reinitialize fuel (tree_children empty_tree)) in
        modify (set_currentBranchName _branchName)
    end.

(** The part of [merge] that follows the call of [mergeTrees] (lines
    203-221); [originTree] is the origin tree as that call left it. *)
Definition merge_report (fuel : nat) (_destinationBranchName : string)
    (originTree : TreeObj) (mergeResult : MergeResult) : Op unit :=
  if bool_decide (mergeFlag mergeResult = Some "conflict")
  then
    throw (Error ("Some of the destination branch files are conflicting with the current one : " ++
                  String (Ascii.ascii_of_nat 10) EmptyString ++
                  default "undefined" (mergeReport mergeResult)))
  else
    match mergeTree mergeResult with
    | None => throw (TypeError "Cannot convert undefined or null to object")
    | Some merged =>
        exec update_wd fuel originTree (mkTreeObj None None merged) in
        exec reinitialize fuel merged in
        await current := gets currentBranchName in
        exec snapshot fuel ("Merged " ++ current ++ "  into " ++ _destinationBranchName) in
        modify (set_currentBranchName _destinationBranchName)
    end.

(** [merge] (lines 149-223) *)
Definition merge (fuel : nat) (_destinationBranchName : string) : Op unit :=
  exec update_index in
  await l := gets id in
  if negb (branch_exists l _destinationBranchName)
  then throw (Error ("Branch " ++ _destinationBranchName ++ " does not exist"))
  else
    match index_unsnapshot (index l), index_modified (index l) with
    | (_ :: _) as unsnapshot, _ =>
        throw (Error ("You have unsnapshot modifications: " ++
                      js_array_to_string unsnapshot))
    | [], (_ :: _) as modified =>
        throw (Error ("You have unstaged and unsnaphot modifications: " ++
                      js_array_to_string modified))
    | [], [] =>
        await destinationHead := branch_head _destinationBranchName in
        await originHead := head in
        await originSnapshot := lift (node_get (node l) (VStr originHead)) in
        await originSnapshotCIDs := lift (buildSnapshotCIDS fuel (node l) originSnapshot) in
        await destinationSnapshot := lift (node_get (node l) (VStr destinationHead)) in
        await destinationSnapshotCIDs :=
          lift (buildSnapshotCIDS fuel (node l) destinationSnapshot) in
        let lcaCID := find_lcaCID originSnapshotCIDs destinationSnapshotCIDs in
        await originTree := lift (node_get_snapshot_tree (node l) (VStr originHead)) in
        await destinationTree := lift (node_get_snapshot_tree (node l) (VStr destinationHead)) in
        await lcaTree := lift (node_get_snapshot_tree (node l) lcaCID) in
        let call := mergeTrees fuel (node l) originTree destinationTree lcaTree in
        await mergeResult := lift (call_outcome call) in
        merge_report fuel _destinationBranchName (call_origin call) mergeResult
    end.
End LoomOperations.

(** ** A concrete store *)

(** A canonical serialisation used as content identifier in the worked
    histories below. *)
Definition parents_label (p : ParentsField) : string :=
  match p with
  | ParentsAbsent => ""
  | ParentsString s => "'" ++ s ++ "'"
  | ParentsLinks ps => "[" ++ String.concat "," ps ++ "]"
  end.

Definition label_cid (n : IpldNode) : CID :=
  match n with
  | NSnapshot s =>
      "snapshot(" ++ snap_author s ++ ";" ++ snap_message s ++ ";" ++
      snap_tree s ++ ";" ++ parents_label (snap_parents s) ++ ")"
  | NTree t =>
      "tree(" ++ default "" (tree_path t) ++ ";" ++
      String.concat "," (map (fun kv : string * CID => kv.1 ++ "=" ++ kv.2) (tree_children t)) ++ ")"
  | NFile f => "file(" ++ file_path f ++ ";" ++ file_link f ++ ")"
  end.

Module History.
Definition tree_of (children : list (string * CID)) : IpldNode :=
  NTree (mkTreeObj (Some "tree") (Some ".") children).
Definition file_of (p : string) (content : CID) : IpldNode :=
  NFile (mkFileObj p content).
Definition commit (msg : string) (t : CID) (ps : ParentsField) : IpldNode :=
  NSnapshot (mkSnapshotObj "alice" msg t ps).

(** Objects shared by the histories: files, root trees. *)
Definition objects : list (CID * IpldNode) :=
  [ ("Fa", file_of "a.txt" "hello");
    ("Fb", file_of "b.txt" "x");
    ("Fm", file_of "m.txt" "M");
    ("Fo", file_of "o.txt" "O");
    ("T1", tree_of [("a.txt", "Fa")]);
    ("T3", tree_of [("a.txt", "Fa"); ("b.txt", "Fb")]);
    ("T4", tree_of [("a.txt", "Fa"); ("m.txt", "Fm")]);
    ("T5", tree_of [("a.txt", "Fa"); ("o.txt", "Fo")]) ].

(** The snapshots, with the initial snapshot's [parents] as given: C3,
    C4 and C5 are children of C1. *)
Definition snapshots (root_parents : ParentsField) : list (CID * IpldNode) :=
  [ ("C1", commit "m1" "T1" root_parents);
    ("C3", commit "m3" "T3" (ParentsLinks ["C1"]));
    ("C4", commit "m4" "T4" (ParentsLinks ["C1"]));
    ("C5", commit "m5" "T5" (ParentsLinks ["C1"])) ].

Definition store (root_parents : ParentsField) : Store :=
  list_to_map (objects ++ snapshots root_parents)%list.

(** The same history continued: C6 has the two parents C4 and C5, and
    C7 is a child of C5. *)
Definition continued (root_parents : ParentsField) : Store :=
  list_to_map
    (objects ++ snapshots root_parents ++
     [ ("C6", commit "m6" "T4" (ParentsLinks ["C4"; "C5"]));
       ("C7", commit "m7" "T5" (ParentsLinks ["C5"])) ])%list.

Definition clean (content : list (string * CID)) : Index :=
  map (fun pc : string * CID => (pc.1, mkIndexEntry pc.2 pc.2 pc.2)) content.

(** Branch [master] at [o], branch [b] at [d], [master] checked out with
    a clean working directory holding [content]. *)
Definition loom (root_parents : ParentsField) (o d : CID)
    (content : list (string * CID)) : Loom :=
  mkLoom (store root_parents) (list_to_map content) (clean content)
         (list_to_map [("master", o); ("b", d)]) "master" "alice".

(** Scenario S2: [master] at C1, [b] at C3, a fast-forward. *)
Definition fast_forward (root_parents : ParentsField) : Loom :=
  loom root_parents "C1" "C3" [("a.txt", "hello")].

(** Scenario S3: [master] at C4, [b] at C5, both children of C1. *)
Definition divergent (root_parents : ParentsField) : Loom :=
  loom root_parents "C4" "C5" [("a.txt", "hello"); ("m.txt", "M")].
End History.

(** Scenario S5: [p] is a file in the origin tree and a directory holding
    [q] in the destination tree. *)
Module KindClash.
Definition store : Store :=
  list_to_map
    [ ("Fp", NFile (mkFileObj "p" "P"));
      ("Fq", NFile (mkFileObj "p/q" "Q"));
      ("Tp", NTree (mkTreeObj (Some "tree") (Some "p") [("q", "Fq")])) ].
Definition origin : TreeObj := mkTreeObj (Some "tree") (Some ".") [("p", "Fp")].
Definition destination : TreeObj := mkTreeObj (Some "tree") (Some ".") [("p", "Tp")].
Definition lca : TreeObj := mkTreeObj (Some "tree") (Some ".") [].
End KindClash.

(** Scenario S4: [a.txt] is changed on [master] (C7) and on [b] (C8), both
    children of C1. *)
Module TextConflict.
Definition store (root_parents : ParentsField) : Store :=
  list_to_map
    [ ("F1", NFile (mkFileObj "a.txt" "line1 line2"));
      ("F7", NFile (mkFileObj "a.txt" "line1 MASTER"));
      ("F8", NFile (mkFileObj "a.txt" "line1 BRANCH"));
      ("T1", History.tree_of [("a.txt", "F1")]);
      ("T7", History.tree_of [("a.txt", "F7")]);
      ("T8", History.tree_of [("a.txt", "F8")]);
      ("C1", History.commit "m1" "T1" root_parents);
      ("C7", History.commit "m7" "T7" (ParentsLinks ["C1"]));
      ("C8", History.commit "m8" "T8" (ParentsLinks ["C1"])) ].

Definition loom (root_parents : ParentsField) : Loom :=
  mkLoom (store root_parents) {[ "a.txt" := "line1 MASTER" ]}
         [("a.txt", mkIndexEntry "line1 MASTER" "line1 MASTER" "line1 MASTER")]
         (list_to_map [("master", "C7"); ("b", "C8")]) "master" "alice".
End TextConflict.

(** ** Notions used to state the properties *)

(** The message of the error that the cleanliness checks of [checkout] and
    [merge] throw for a given index. *)
Definition dirty_message (ix : Index) : string :=
  match index_unsnapshot ix with
  | _ :: _ => "You have unsnapshot modifications: " ++
              js_array_to_string (index_unsnapshot ix)
  | [] => "You have unstaged and unsnaphot modifications: " ++
          js_array_to_string (index_modified ix)
  end.

(** The links in the [parents] array of the snapshot stored under [c]. *)
Definition parent_links (nd : Store) (c : CID) : list CID :=
  match nd !! c with
  | Some (NSnapshot s) =>
      match snap_parents s with
      | ParentsLinks ps => ps
      | _ => []
      end
  | _ => []
  end.

(** Modelled from the spec: [ancestors], the snapshots reached from a
    frontier through all [parents] links, breadth first, within [fuel]
    generations. *)
Fixpoint reach (fuel : nat) (nd : Store) (frontier : list CID) : list CID :=
  match fuel with
  | 0 => []
  | S fuel' => (frontier ++ reach fuel' nd (flat_map (parent_links nd) frontier))%list
  end.

(** [c] itself and everything above it. *)
Definition ancestors_or_self (fuel : nat) (nd : Store) (c : CID) : list CID :=
  reach fuel nd [c].

(** Everything strictly above [c]. *)
Definition strict_ancestors (fuel : nat) (nd : Store) (c : CID) : list CID :=
  reach fuel nd (parent_links nd c).

(** The first-parent chain of a stored node ends at an initial snapshot,
    one whose [parents] key is absent. *)
Inductive ends_at_initial (nd : Store) : IpldNode -> Prop :=
| initial_here s :
    snap_parents s = ParentsAbsent -> ends_at_initial nd (NSnapshot s)
| initial_above s c ps next :
    snap_parents s = ParentsLinks (c :: ps) ->
    nd !! c = Some next ->
    ends_at_initial nd next ->
    ends_at_initial nd (NSnapshot s).

(** The snapshots of a store whose [parents] are exactly [[o; d]]. *)
Definition merge_snapshots_of (nd : Store) (o d : CID) : list CID :=
  omap (fun kv : CID * IpldNode =>
          match kv.2 with
          | NSnapshot s =>
              match snap_parents s with
              | ParentsLinks [p0; p1] =>
                  if bool_decide (p0 = o) && bool_decide (p1 = d) then Some kv.1 else None
              | _ => None
              end
          | _ => None
          end) (map_to_list nd).

(** A new loom: [master] has no snapshot yet and [a.txt] is staged. *)
Definition staged_first : Loom :=
  mkLoom ∅ {[ "a.txt" := "hello" ]}
         [("a.txt", mkIndexEntry "hello" "hello" "")]
         {[ "master" := "undefined" ]} "master" "alice".

(** A loom on [master] at C1 with an edit of [a.txt] staged. *)
Definition staged_edit : Loom :=
  mkLoom (History.store ParentsAbsent) {[ "a.txt" := "hello world" ]}
         [("a.txt", mkIndexEntry "hello world" "hello world" "hello")]
         {[ "master" := "C1" ]} "master" "alice".

(** The first-parent chain of a stored node, written out: it ends at a
    snapshot whose [parents] is the string ['undefined'], and [cs] are the
    links followed on the way. *)
Inductive first_parent_chain (nd : Store) : IpldNode -> list CID -> Prop :=
| chain_root s :
    snap_parents s = ParentsString "undefined" ->
    first_parent_chain nd (NSnapshot s) []
| chain_step s c ps next cs :
    snap_parents s = ParentsLinks (c :: ps) ->
    nd !! c = Some next ->
    first_parent_chain nd next cs ->
    first_parent_chain nd (NSnapshot s) (c :: cs).

(** An operation that leaves the object store, the branch heads and the
    current branch as it found them. *)
Definition keeps_refs {A} (c : Op A) : Prop :=
  forall l, node (c l).2 = node l /\ branches (c l).2 = branches l /\
            currentBranchName (c l).2 = currentBranchName l.

(** How [tree()] may change an index entry: the path, [wdir] and [stage]
    stay, and [repo] either stays or becomes [stage]. *)
Definition entry_snapshotted (before after : string * IndexEntry) : Prop :=
  after.1 = before.1 /\ ie_wdir after.2 = ie_wdir before.2 /\
  ie_stage after.2 = ie_stage before.2 /\
  (ie_repo after.2 = ie_repo before.2 \/ ie_repo after.2 = ie_stage before.2).

(** An index entry whose staged content is the snapshotted content. *)
Definition entry_settled (pe : string * IndexEntry) : Prop :=
  ie_stage pe.2 = ie_repo pe.2.

(** An operation after whose return every index entry is settled. *)
Definition settles_index {A} (c : Op A) : Prop :=
  forall l a l', c l = (Returned a, l') -> Forall entry_settled (index l').

(** ** Properties of mergeTrees *)

Lemma obj_delete_absent (o : list (string * CID)) (k : string) :
  obj_get o k = None -> obj_delete o k = o.
Proof.
  induction o as [|[k' v] o IH]; simpl; [reflexivity|].
  case_bool_decide; [discriminate|].
  intros Hg. f_equal. exact (IH Hg).
Qed.

Lemma insert_index_perm (i : N) (kv : string * CID) (l : list (N * (string * CID))) :
  Permutation (insert_index i kv l) ((i, kv) :: l).
Proof.
  induction l as [|[j kv'] l IH]; simpl; [reflexivity|].
  destruct (i <? j)%N; [reflexivity|].
  rewrite IH. apply perm_swap.
Qed.

(** [for ... in] visits every own property once. *)
Lemma for_in_entries_perm (o : list (string * CID)) :
  Permutation (for_in_entries o) o.
Proof.
  unfold for_in_entries. induction o as [|kv o IH]; simpl; [reflexivity|].
  destruct (array_index kv.1) as [i|].
  - rewrite (Permutation_map snd (insert_index_perm i kv (indexed_entries o))).
    simpl. apply perm_skip. exact IH.
  - rewrite <- Permutation_middle. apply perm_skip. exact IH.
Qed.

Lemma for_in_keys_perm (o : list (string * CID)) :
  Permutation (for_in_keys o) (map fst o).
Proof. unfold for_in_keys. apply Permutation_map. apply for_in_entries_perm. Qed.

Lemma for_in_keys_In (o : list (string * CID)) (k : string) :
  In k (for_in_keys o) <-> In k (map fst o).
Proof.
  split; apply Permutation_in; [|symmetry]; apply for_in_keys_perm.
Qed.

Lemma js_prop_own (o : list (string * CID)) (k : string) (c : CID) :
  obj_get o k = Some c -> js_prop o k = POwn c.
Proof. intros H. unfold js_prop. rewrite H. reflexivity. Qed.

Lemma js_prop_absent (o : list (string * CID)) (k : string) :
  js_prop o k = PAbsent -> obj_get o k = None.
Proof.
  unfold js_prop. destruct (obj_get o k); [discriminate|]. reflexivity.
Qed.

Lemma fill_mergeResult_undefined flag report t :
  returned (fill_mergeResult None flag report t) = false.
Proof. reflexivity. Qed.

(** The loop body never takes a child away from the origin tree: its only
    [delete _originTree[entry]] sits in the branch where the entry is
    absent. *)
Lemma merge_entry_origin_children recurse nd d l entry o mt :
  tree_children (merge_entry recurse nd d l entry o mt).2 = tree_children o.
Proof.
  unfold merge_entry.
  destruct (obj_get (tree_children d) entry) as [dc|]; [|reflexivity].
  destruct (js_prop (tree_children o) entry) as [oc| |] eqn:Ho.
  - case_bool_decide; [reflexivity|].
    destruct (node_get_type nd oc); try reflexivity.
    destruct (node_get_type nd dc); try reflexivity.
    destruct (negb _); [reflexivity|].
    case_bool_decide.
    + destruct (merge_file_entry _ _ _ _ _); reflexivity.
    + case_bool_decide; [|reflexivity].
      destruct (merge_tree_entry _ _ _ _ _ _); reflexivity.
  - reflexivity.
  - destruct (js_assign mt entry dc); try reflexivity.
    simpl. apply obj_delete_absent. apply js_prop_absent. exact Ho.
Qed.

Lemma merge_loop_origin_children recurse nd d l entries o mt :
  tree_children (merge_loop recurse nd d l entries o mt).2 = tree_children o.
Proof.
  revert o mt. induction entries as [|entry rest IH]; intros o mt; simpl; [reflexivity|].
  pose proof (merge_entry_origin_children recurse nd d l entry o mt) as He.
  destruct (merge_entry recurse nd d l entry o mt) as [[mt'| |] o']; simpl in He.
  - rewrite IH. exact He.
  - exact He.
  - exact He.
Qed.

(** Every call of [mergeTrees] ends in an exception (or runs out of fuel):
    the local [mergeResult] is never initialised, so the assignment
    [mergeResult[0] = mergeFlag] that precedes the [return] throws. *)
Lemma mergeTrees_never_returns fuel nd o d l :
  returned (call_outcome (mergeTrees fuel nd o d l)) = false.
Proof.
  destruct fuel as [|fuel]; simpl; [reflexivity|].
  destruct (merge_loop _ _ _ _ _ _ _) as [[mt| |] o']; reflexivity.
Qed.

(** C1 (code defect).  Base and destination trees are empty and the origin
    tree has the single child [n.txt]: [mergeTrees] throws a [TypeError]
    and returns no merged tree; and the loop over the destination entries,
    even when started from an empty merged tree, ends without the origin
    entry. *)
Theorem mergeTrees_loses_origin_only_entry :
  let origin := mkTreeObj (Some "tree") (Some ".") [("n.txt", "Fn")] in
  let destination := mkTreeObj (Some "tree") (Some ".") [] in
  let lca := mkTreeObj (Some "tree") (Some ".") [] in
  let nd : Store := {[ "Fn" := NFile (mkFileObj "n.txt" "new") ]} in
  call_outcome (mergeTrees 3 nd origin destination lca)
    = Thrown (TypeError "Cannot set property '0' of undefined")
  /\ (merge_loop (mergeTrees 2 nd) nd (delete_meta destination) (delete_meta lca)
        (map fst (tree_children destination)) (delete_meta origin) (Some [])).1
     = Returned (Some []).
Proof. split; reflexivity. Qed.

(** C10 (code defect).  [mergeTrees] deletes ['@type'] and ['path'] from
    its origin argument and leaves every child entry of it in place, the
    entries shared with the destination tree included;
    [updateWorkingDirectory] on the same shape of input does remove the
    shared entry from its base argument. *)
Theorem mergeTrees_keeps_origin_children :
  (forall fuel nd o d l,
      tree_children (call_origin (mergeTrees fuel nd o d l)) = tree_children o)
  /\ (forall fuel nd o d l,
      tree_type (call_origin (mergeTrees (S fuel) nd o d l)) = None /\
      tree_path (call_origin (mergeTrees (S fuel) nd o d l)) = None)
  /\ (let shared := mkTreeObj (Some "tree") (Some ".") [("a.txt", "Fa")] in
      call_origin (mergeTrees 3 (History.store ParentsAbsent) shared shared shared)
        = mkTreeObj None None [("a.txt", "Fa")]
      /\ upd_base (updateWorkingDirectory 3 (History.store ParentsAbsent) shared shared ∅)
        = mkTreeObj None None []).
Proof.
  split; [|split].
  - intros fuel nd o d l. destruct fuel as [|fuel]; simpl; [reflexivity|].
    pose proof (merge_loop_origin_children (mergeTrees fuel nd) nd (delete_meta d)
                  (delete_meta l) (for_in_keys (tree_children d)) (delete_meta o) None) as H.
    destruct (merge_loop _ _ _ _ _ _ _) as [[mt| |] o']; exact H.
  - intros fuel nd o d l. simpl.
    assert (Hm : forall entries o0 mt,
               tree_type o0 = None /\ tree_path o0 = None ->
               let r := merge_loop (mergeTrees fuel nd) nd (delete_meta d) (delete_meta l)
                          entries o0 mt in
               tree_type r.2 = None /\ tree_path r.2 = None).
    { induction entries as [|entry rest IH]; intros o0 mt Ho; simpl; [exact Ho|].
      assert (He : tree_type (merge_entry (mergeTrees fuel nd) nd (delete_meta d)
                                (delete_meta l) entry o0 mt).2 = None /\
                   tree_path (merge_entry (mergeTrees fuel nd) nd (delete_meta d)
                                (delete_meta l) entry o0 mt).2 = None).
      { unfold merge_entry.
        repeat (match goal with
                | |- context [match ?x with _ => _ end] => destruct x
                | |- context [if ?b then _ else _] => destruct b
                end; simpl; try exact Ho). }
      destruct (merge_entry _ _ _ _ entry o0 mt) as [[mt'| |] o1]; simpl in *.
      - apply IH. exact He.
      - exact He.
      - exact He. }
    specialize (Hm (for_in_keys (tree_children d)) (delete_meta o) None (conj eq_refl eq_refl)).
    simpl in Hm.
    destruct (merge_loop _ _ _ _ _ _ _) as [[mt| |] o']; exact Hm.
  - split; reflexivity.
Qed.

(** C5 (code defect).  In scenario S5, [p] a file in the origin tree and a
    directory in the destination tree, [mergeTrees] reports no conflict:
    the call ends in the [TypeError] of [mergeTree[entry] =
    _destinationTree[entry]] (line 360), the statement that the comment
    above it announces as adding the entry to the merge tree.  No call of
    [mergeTrees], on any input, hands back a tuple, so none reports a
    type conflict. *)
Theorem kind_clash_throws_type_error :
  call_outcome (mergeTrees 4 KindClash.store KindClash.origin
                  KindClash.destination KindClash.lca)
  = Thrown (TypeError "Cannot set property 'p' of undefined")
  /\ ~ (exists r,
          call_outcome (mergeTrees 4 KindClash.store KindClash.origin
                          KindClash.destination KindClash.lca) = Returned r
          /\ mergeFlag r = Some "conflict")
  /\ (forall fuel nd o d l r,
         call_outcome (mergeTrees fuel nd o d l) <> Returned r).
Proof.
  split; [reflexivity|]. split.
  - intros [r [Hr _]]. vm_compute in Hr. discriminate Hr.
  - intros fuel nd o d l r Hr.
    pose proof (mergeTrees_never_returns fuel nd o d l) as Hn.
    rewrite Hr in Hn. discriminate Hn.
Qed.

(** ** Properties of merge and checkout *)

Lemma bind_lift {A B} (o : Outcome A) (k : A -> Op B) (l : Loom) :
  bind (lift o) k l =
  match o with
  | Returned a => k a l
  | Thrown e => (Thrown e, l)
  | OutOfFuel => (OutOfFuel, l)
  end.
Proof. destruct o; reflexivity. Qed.

Lemma bind_modify {B} (f : Loom -> Loom) (k : unit -> Op B) (l : Loom) :
  bind (modify f) k l = k tt (f l).
Proof. reflexivity. Qed.

Lemma bind_gets {A B} (f : Loom -> A) (k : A -> Op B) (l : Loom) :
  bind (gets f) k l = k (f l) l.
Proof. reflexivity. Qed.

Lemma bind_branch_head {B} (name : string) (k : string -> Op B) (l : Loom) :
  bind (branch_head name) k l =
  match branches l !! name with
  | Some h => k h l
  | None => (Thrown (Error ("Branch " ++ name ++ " does not exist")), l)
  end.
Proof. unfold bind, branch_head. destruct (branches l !! name); reflexivity. Qed.

Lemma bind_head {B} (k : string -> Op B) (l : Loom) :
  bind head k l =
  match branches l !! currentBranchName l with
  | Some h => k h l
  | None => (Thrown (Error ("Branch " ++ currentBranchName l ++ " does not exist")), l)
  end.
Proof.
  unfold head, bind, gets, branch_head.
  destruct (branches l !! currentBranchName l); reflexivity.
Qed.

Ltac step_lift :=
  rewrite bind_lift;
  match goal with
  | |- context [match ?o with Returned _ => _ | Thrown _ => _ | OutOfFuel => _ end] =>
      destruct o; try (split; reflexivity)
  end.

(** Whatever the arguments, [merge] does not complete, and the loom it
    leaves is the one produced by the index update at its start: the
    calls that could change anything else come after [mergeTrees], which
    never returns. *)
Lemma merge_stops_after_index_update cid_of fuel dest l :
  returned (merge cid_of fuel dest l).1 = false /\
  (merge cid_of fuel dest l).2 = (update_index l).2.
Proof.
  unfold merge, update_index. rewrite bind_modify, bind_gets.
  unfold id. cbv beta.
  set (l' := set_index _ l).
  destruct (negb (branch_exists l' dest)); [split; reflexivity|].
  destruct (index_unsnapshot (index l')); [|split; reflexivity].
  destruct (index_modified (index l')); [|split; reflexivity].
  rewrite bind_branch_head.
  destruct (branches l' !! dest); [|split; reflexivity].
  rewrite bind_head.
  destruct (branches l' !! currentBranchName l'); [|split; reflexivity].
  do 7 step_lift.
  rewrite bind_lift.
  match goal with
  | |- context [call_outcome (mergeTrees ?f ?n ?a ?b ?c)] =>
      pose proof (mergeTrees_never_returns f n a b c) as Hn;
      destruct (call_outcome (mergeTrees f n a b c));
      [discriminate Hn | split; reflexivity | split; reflexivity]
  end.
Qed.

(** C4 (code defect).  Scenario S4, [a.txt] changed on [master] (C7) and
    on [b] (C8), both children of C1.  [merge] throws, but the error is
    not the conflict error of line 206 and carries no report: it is the
    failed read of the tree of ['undefined'], whether or not C1 has a
    [parents] key telling the walk to stop.  [mergeTrees] on the three
    trees of the scenario runs the text merge of [a.txt], records nothing
    and ends in the [TypeError] of line 398; the flag ['conflict'] is
    assigned nowhere.  The working directory, the heads, the index and
    the store are those found. *)
Theorem merge_text_conflict_reports_nothing :
  (let l := TextConflict.loom (ParentsString "undefined") in
   merge label_cid 20 "b" l = (Thrown (MissingObject (VStr "undefined")), l))
  /\ (let l := TextConflict.loom ParentsAbsent in
      merge label_cid 20 "b" l
      = (Thrown (TypeError "Cannot read property '0' of undefined"), l))
  /\ call_outcome
       (mergeTrees 4 (TextConflict.store ParentsAbsent)
          (mkTreeObj (Some "tree") (Some ".") [("a.txt", "F7")])
          (mkTreeObj (Some "tree") (Some ".") [("a.txt", "F8")])
          (mkTreeObj (Some "tree") (Some ".") [("a.txt", "F1")]))
     = Thrown (TypeError "Cannot set property '0' of undefined").
Proof. repeat split; vm_compute; reflexivity. Qed.

(** C7 (refuted as stated).  With a staged, unsnapshotted file in the
    index and a branch name that does not exist, [checkout] and [merge]
    fail with the unknown-branch error, not with a dirty-workspace error. *)
Lemma dirty_unknown_branch_reports_branch :
  let l := mkLoom (History.store ParentsAbsent) {[ "a.txt" := "edited" ]}
             [("a.txt", mkIndexEntry "edited" "edited" "hello")]
             {[ "master" := "C1" ]} "master" "alice" in
  index_unsnapshot (index (update_index l).2) = ["a.txt"]
  /\ (checkout 20 "nowhere" l).1 = Thrown (Error "Branch nowhere does not exist")
  /\ (merge label_cid 20 "nowhere" l).1 = Thrown (Error "Branch nowhere does not exist")
  /\ (checkout 20 "nowhere" l).1 <> Thrown (Error (dirty_message (index (update_index l).2))).
Proof.
  repeat split; try reflexivity.
  vm_compute. discriminate.
Qed.

(** C7 (amended).  When the named branch exists and, after the index
    update, the unsnapshot set or the modified set is non-empty,
    [checkout] and [merge] throw an error listing the unsnapshot paths
    when there are any and the modified paths otherwise, and leave the
    loom as the index update left it: working directory, branch heads,
    current branch and object store are untouched. *)
Theorem dirty_workspace_guard cid_of fuel (name : string) (l : Loom) :
  let l' := (update_index l).2 in
  branch_exists l' name = true ->
  index_unsnapshot (index l') <> [] \/ index_modified (index l') <> [] ->
  checkout fuel name l = (Thrown (Error (dirty_message (index l'))), l')
  /\ merge cid_of fuel name l = (Thrown (Error (dirty_message (index l'))), l')
  /\ wdir l' = wdir l /\ branches l' = branches l
  /\ currentBranchName l' = currentBranchName l /\ node l' = node l.
Proof.
  intros l' Hex Hdirty.
  assert (Hck : checkout fuel name l = (Thrown (Error (dirty_message (index l'))), l')
                /\ merge cid_of fuel name l = (Thrown (Error (dirty_message (index l'))), l')).
  { unfold checkout, merge, update_index. rewrite !bind_modify, !bind_gets.
    unfold id. cbv beta.
    change (set_index (index_update (index l) (wdir l)) l) with l'.
    rewrite Hex. cbv iota. unfold negb, dirty_message.
    destruct (index_unsnapshot (index l')) as [|u us] eqn:Hu.
    - destruct (index_modified (index l')) as [|m ms] eqn:Hm.
      + destruct Hdirty as [H | H]; congruence.
      + split; reflexivity.
    - split; reflexivity. }
  destruct Hck as [Hc Hm]. repeat split; assumption || reflexivity.
Qed.

Lemma dirty_workspace_guard_witness :
  let l := mkLoom (History.store ParentsAbsent) {[ "a.txt" := "edited" ]}
             [("a.txt", mkIndexEntry "hello" "hello" "hello")]
             (list_to_map [("master", "C1"); ("b", "C3")]) "master" "alice" in
  checkout 20 "b" l
  = (Thrown (Error "You have unstaged and unsnaphot modifications: a.txt"),
     set_index [("a.txt", mkIndexEntry "edited" "hello" "hello")] l)
  /\ merge label_cid 20 "b" l
  = (Thrown (Error "You have unstaged and unsnaphot modifications: a.txt"),
     set_index [("a.txt", mkIndexEntry "edited" "hello" "hello")] l).
Proof.
  pose proof (dirty_workspace_guard label_cid 20 "b"
                (mkLoom (History.store ParentsAbsent) {[ "a.txt" := "edited" ]}
                   [("a.txt", mkIndexEntry "hello" "hello" "hello")]
                   (list_to_map [("master", "C1"); ("b", "C3")]) "master" "alice")) as G.
  simpl in G.
  destruct G as [Hc [Hm _]].
  - reflexivity.
  - right. vm_compute. discriminate.
  - split; [exact Hc | exact Hm].
Defined.

(** C2 (code defect).  Scenario S3, [master] at C4 merging [b] at C5, both
    children of C1: [merge] throws (at the read of the tree of
    ['undefined'] when C1 carries [parents = 'undefined'], in the snapshot
    walk when C1 has no [parents] key), the object store and the heads
    are those it started with, and the store holds no snapshot with
    parents [[C4; C5]].  No call of [merge], on any loom, writes to the
    object store. *)
Theorem merge_divergent_creates_no_merge_snapshot :
  (let l := History.divergent (ParentsString "undefined") in
   let r := merge label_cid 20 "b" l in
   r.1 = Thrown (MissingObject (VStr "undefined"))
   /\ node r.2 = node l
   /\ branches r.2 = branches l
   /\ merge_snapshots_of (node r.2) "C4" "C5" = [])
  /\ (let l := History.divergent ParentsAbsent in
      let r := merge label_cid 20 "b" l in
      r.1 = Thrown (TypeError "Cannot read property '0' of undefined")
      /\ node r.2 = node l
      /\ branches r.2 = branches l
      /\ merge_snapshots_of (node r.2) "C4" "C5" = [])
  /\ (forall cid_of fuel name l, node (merge cid_of fuel name l).2 = node l).
Proof.
  split; [|split].
  - repeat split; vm_compute; reflexivity.
  - repeat split; vm_compute; reflexivity.
  - intros cid_of fuel name l.
    destruct (merge_stops_after_index_update cid_of fuel name l) as [_ Hl].
    rewrite Hl. reflexivity.
Qed.

(** C3 (code defect).  In scenario S3 the head of the current branch does
    not move: after [merge] has thrown, [master] still points at C4, [b]
    at C5, and the working directory and index are those of C4. *)
Theorem merge_divergent_head_not_moved :
  let l := History.divergent (ParentsString "undefined") in
  let r := merge label_cid 20 "b" l in
  thrown r.1 = true
  /\ currentBranchName r.2 = "master"
  /\ branches r.2 !! "master" = Some "C4"
  /\ branches r.2 !! "b" = Some "C5"
  /\ wdir r.2 = wdir l /\ index r.2 = index l.
Proof. repeat split; vm_compute; reflexivity. Qed.

(** C6 (code defect).  Scenario S2, [master] at C1 merging [b] at C3, a
    child of C1: [merge] throws, whether the initial snapshot has no
    [parents] key or the string ['undefined'] there, and [master] stays at
    C1 with the working directory of C1.  Merging a branch whose head is
    the current head throws as well, at the read of the tree of
    ['undefined']. *)
Theorem merge_fast_forward_throws :
  (let r := merge label_cid 20 "b" (History.fast_forward ParentsAbsent) in
   r.1 = Thrown (TypeError "Cannot read property '0' of undefined")
   /\ branches r.2 !! "master" = Some "C1"
   /\ wdir r.2 !! "b.txt" = None)
  /\ (let r := merge label_cid 20 "b" (History.fast_forward (ParentsString "undefined")) in
      r.1 = Thrown (MissingObject (VStr "undefined"))
      /\ branches r.2 !! "master" = Some "C1"
      /\ wdir r.2 !! "b.txt" = None)
  /\ (let l := History.loom (ParentsString "undefined") "C3" "C3"
                 [("a.txt", "hello"); ("b.txt", "x")] in
      (merge label_cid 20 "b" l).1
      = Thrown (MissingObject (VStr "undefined"))).
Proof. repeat split; vm_compute; reflexivity. Qed.

(** C8 (code defect).  With C1 the initial snapshot, C3 its child: the
    value computed for the pair (C1, C3) is the string ['undefined'], which
    names no snapshot, although C1 is a common ancestor of both.  With C6
    of parents C4 and C5, and C7 a child of C5: the value computed for
    (C6, C7) is again the string ['undefined'], although C5 and C1 are
    common ancestors of C6 and C7, C5 strictly below C1. *)
Theorem lca_loop_misses_lowest_common_ancestor :
  let nd := History.continued (ParentsString "undefined") in
  (exists n1 n3 l1 l3,
      nd !! "C1" = Some n1 /\ nd !! "C3" = Some n3
      /\ buildSnapshotCIDS 20 nd n1 = Returned l1
      /\ buildSnapshotCIDS 20 nd n3 = Returned l3
      /\ find_lcaCID l1 l3 = VStr "undefined"
      /\ nd !! "undefined" = None
      /\ In "C1" (ancestors_or_self 20 nd "C1")
      /\ In "C1" (ancestors_or_self 20 nd "C3"))
  /\ (exists n6 n7 l6 l7,
      nd !! "C6" = Some n6 /\ nd !! "C7" = Some n7
      /\ buildSnapshotCIDS 20 nd n6 = Returned l6
      /\ buildSnapshotCIDS 20 nd n7 = Returned l7
      /\ find_lcaCID l6 l7 = VStr "undefined"
      /\ nd !! "undefined" = None
      /\ In "C5" (strict_ancestors 20 nd "C6")
      /\ In "C5" (strict_ancestors 20 nd "C7")
      /\ In "C1" (strict_ancestors 20 nd "C5")
      /\ ~ In "C5" (strict_ancestors 20 nd "C1")).
Proof.
  split.
  - do 4 eexists. repeat split; try (vm_compute; reflexivity).
    + vm_compute. left. reflexivity.
    + vm_compute. right. left. reflexivity.
  - do 4 eexists. repeat split; try (vm_compute; reflexivity).
    + vm_compute. tauto.
    + vm_compute. tauto.
    + vm_compute. tauto.
    + vm_compute. tauto.
Qed.

(** ** The snapshot walk on a history with an initial snapshot *)

Lemma buildSnapshotCIDS_loop_initial nd n :
  ends_at_initial nd n ->
  (forall fuel acc, returned (buildSnapshotCIDS_loop fuel nd n acc) = false)
  /\ (exists k, forall fuel acc, k <= fuel ->
        buildSnapshotCIDS_loop fuel nd n acc
        = Thrown (TypeError "Cannot read property '0' of undefined")).
Proof.
  induction 1 as [s Hs | s c ps next Hs Hc Hnext [IHr [k IHk]]].
  - split.
    + intros [|fuel] acc; [reflexivity|]. cbn. rewrite Hs. reflexivity.
    + exists 1. intros [|fuel] acc Hle; [inversion Hle|].
      cbn. rewrite Hs. reflexivity.
  - split.
    + intros [|fuel] acc; [reflexivity|]. cbn. rewrite Hs. cbn.
      rewrite Hc. apply IHr.
    + exists (S k). intros [|fuel] acc Hle; [inversion Hle|].
      cbn. rewrite Hs. cbn. rewrite Hc. apply IHk.
      apply le_S_n. exact Hle.
Qed.

(** C9 (code defect).  When the first-parent chain of a snapshot ends at
    an initial snapshot, one without a [parents] key, [buildSnapshotCIDS]
    returns no list, whatever the fuel: once the walk has reached the
    initial snapshot the guard [snapshot.parents !== 'undefined'] holds
    and [snapshot.parents[0]] throws a [TypeError]. *)
Theorem buildSnapshotCIDS_initial_snapshot_throws nd n :
  ends_at_initial nd n ->
  (forall fuel, returned (buildSnapshotCIDS fuel nd n) = false)
  /\ (exists k, forall fuel, k <= fuel ->
        buildSnapshotCIDS fuel nd n
        = Thrown (TypeError "Cannot read property '0' of undefined")).
Proof.
  intros Hn. destruct (buildSnapshotCIDS_loop_initial nd n Hn) as [Hr [k Hk]].
  split.
  - intros fuel. apply Hr.
  - exists k. intros fuel Hle. apply Hk. exact Hle.
Qed.

Lemma buildSnapshotCIDS_initial_snapshot_witness :
  (forall fuel,
      returned (buildSnapshotCIDS fuel (History.store ParentsAbsent)
                  (History.commit "m3" "T3" (ParentsLinks ["C1"]))) = false)
  /\ (exists k, forall fuel, k <= fuel ->
        buildSnapshotCIDS fuel (History.store ParentsAbsent)
          (History.commit "m3" "T3" (ParentsLinks ["C1"]))
        = Thrown (TypeError "Cannot read property '0' of undefined")).
Proof.
  apply (buildSnapshotCIDS_initial_snapshot_throws (History.store ParentsAbsent)
           (History.commit "m3" "T3" (ParentsLinks ["C1"]))).
  apply (initial_above _ _ "C1" [] (History.commit "m1" "T1" ParentsAbsent)).
  - reflexivity.
  - vm_compute. reflexivity.
  - apply initial_here. reflexivity.
Defined.


(** ** Further properties of mergeTrees *)

Lemma obj_get_of_key (cs : list (string * CID)) (k : string) :
  In k (map fst cs) -> exists c, obj_get cs k = Some c.
Proof.
  induction cs as [|[k' v] cs IH]; simpl; [intros []|].
  intros [Hk | Hk].
  - subst k'. exists v. rewrite bool_decide_eq_true_2; reflexivity.
  - case_bool_decide; [exists v; reflexivity | exact (IH Hk)].
Qed.

Lemma merge_loop_agreeing recurse nd d l entries o mt :
  (forall k, In k entries ->
     exists c, obj_get (tree_children d) k = Some c /\
               obj_get (tree_children o) k = Some c) ->
  merge_loop recurse nd d l entries o mt = (Returned mt, o).
Proof.
  induction entries as [|entry rest IH]; intros Hall; simpl; [reflexivity|].
  destruct (Hall entry (or_introl eq_refl)) as [c [Hd Ho]].
  unfold merge_entry. rewrite Hd, (js_prop_own _ _ _ Ho).
  rewrite bool_decide_eq_true_2 by reflexivity.
  apply IH. intros k Hk. apply Hall. right. exact Hk.
Qed.

(** X1.  No call of [mergeTrees] returns a tuple: whatever the store, the
    three trees and the fuel, the call throws or is still running when
    the fuel is spent; and the children of the destination and base
    arguments are never changed. *)
Theorem mergeTrees_outcome_is_failure fuel nd o d l :
  ((exists e, call_outcome (mergeTrees fuel nd o d l) = Thrown e)
   \/ call_outcome (mergeTrees fuel nd o d l) = OutOfFuel)
  /\ tree_children (call_destination (mergeTrees fuel nd o d l)) = tree_children d
  /\ tree_children (call_lca (mergeTrees fuel nd o d l)) = tree_children l.
Proof.
  split.
  - pose proof (mergeTrees_never_returns fuel nd o d l) as Hn.
    destruct (call_outcome (mergeTrees fuel nd o d l)) as [r|e|].
    + discriminate Hn.
    + left. exists e. reflexivity.
    + right. reflexivity.
  - destruct fuel as [|fuel]; simpl; [split; reflexivity|].
    destruct (merge_loop _ _ _ _ _ _ _) as [[mt| |] o']; split; reflexivity.
Qed.

(** X3.  When every entry of the destination tree is in the origin tree
    with the same link (identical trees in particular), the loop of
    [mergeTrees] passes without touching the store and the call throws at
    [mergeResult[0] = mergeFlag]; the three arguments have lost their
    reserved keys and kept their children. *)
Theorem mergeTrees_agreeing_destination_throws_at_return fuel nd o d l :
  (forall k c, obj_get (tree_children d) k = Some c ->
               obj_get (tree_children o) k = Some c) ->
  mergeTrees (S fuel) nd o d l
  = mkMergeCall (Thrown (TypeError "Cannot set property '0' of undefined"))
      (delete_meta o) (delete_meta d) (delete_meta l).
Proof.
  intros Hagree. simpl.
  rewrite merge_loop_agreeing; [reflexivity|].
  intros k Hk. change (tree_children (delete_meta d)) with (tree_children d) in Hk.
  apply (proj1 (for_in_keys_In _ _)) in Hk.
  destruct (obj_get_of_key (tree_children d) k Hk) as [c Hc].
  exists c. simpl. split; [exact Hc | apply Hagree; exact Hc].
Qed.

Lemma mergeTrees_agreeing_destination_witness :
  let t1 := mkTreeObj (Some "tree") (Some ".") [("a.txt", "Fa")] in
  let t4 := mkTreeObj (Some "tree") (Some ".") [("a.txt", "Fa"); ("m.txt", "Fm")] in
  mergeTrees 1 ∅ t4 t1 t1
  = mkMergeCall (Thrown (TypeError "Cannot set property '0' of undefined"))
      (delete_meta t4) (delete_meta t1) (delete_meta t1).
Proof.
  apply (mergeTrees_agreeing_destination_throws_at_return 0 ∅
           (mkTreeObj (Some "tree") (Some ".") [("a.txt", "Fa"); ("m.txt", "Fm")])
           (mkTreeObj (Some "tree") (Some ".") [("a.txt", "Fa")])
           (mkTreeObj (Some "tree") (Some ".") [("a.txt", "Fa")])).
  intros k c. simpl. case_bool_decide; [|discriminate].
  intros Hc. exact Hc.
Defined.

(** X4.  A file that differs between origin and destination, has no
    entry in the base tree and does not bear the name of a member that
    objects inherit ([constructor], [toString], ...) makes the loop body
    throw the no-common-ancestor error naming that file; nothing is
    merged and the origin tree is left as it was. *)
Theorem merge_entry_file_without_ancestor_throws
    recurse nd (_destinationTree _lcaTree _originTree : TreeObj)
    (entry : string) (o d : CID) (mt : option (list (string * CID))) :
  obj_get (tree_children _destinationTree) entry = Some d ->
  obj_get (tree_children _originTree) entry = Some o ->
  d <> o ->
  node_get_type nd o = Returned "file" ->
  node_get_type nd d = Returned "file" ->
  obj_get (tree_children _lcaTree) entry = None ->
  entry ∉ object_prototype_members ->
  merge_entry recurse nd _destinationTree _lcaTree entry _originTree mt
  = (Thrown (Error ("We can't perform a three way merge for " ++ entry ++
       ". There's no common ancestor in the branch node. Please choose wich file you wan't to keep manually")),
     _originTree).
Proof.
  intros Hd Ho Hne Hto Htd Hl Hproto. unfold merge_entry.
  rewrite Hd, (js_prop_own _ _ _ Ho), Hto, Htd.
  unfold js_prop. rewrite Hl. rewrite (bool_decide_eq_false_2 _ Hproto).
  rewrite (bool_decide_eq_false_2 _ Hne). reflexivity.
Qed.

Lemma merge_entry_file_without_ancestor_witness :
  exists msg,
    merge_entry (mergeTrees 3 (History.store ParentsAbsent)) (History.store ParentsAbsent)
      (mkTreeObj None None [("n.txt", "Fm")]) (mkTreeObj None None [])
      "n.txt" (mkTreeObj None None [("n.txt", "Fo")]) None
    = (Thrown (Error msg), mkTreeObj None None [("n.txt", "Fo")]).
Proof.
  eexists.
  apply (merge_entry_file_without_ancestor_throws
           (mergeTrees 3 (History.store ParentsAbsent)) (History.store ParentsAbsent)
           (mkTreeObj None None [("n.txt", "Fm")]) (mkTreeObj None None [])
           (mkTreeObj None None [("n.txt", "Fo")]) "n.txt" "Fo" "Fm" None).
  - reflexivity.
  - reflexivity.
  - discriminate.
  - vm_compute. reflexivity.
  - vm_compute. reflexivity.
  - reflexivity.
  - vm_compute. intros H. repeat (apply elem_of_cons in H; destruct H as [H | H]; [discriminate H|]).
    apply elem_of_nil in H. exact H.
Defined.


(** ** Further properties of the snapshot walk and of the ancestor loop *)

Lemma buildSnapshotCIDS_loop_chain nd n cs :
  first_parent_chain nd n cs ->
  forall fuel acc, length cs < fuel ->
    buildSnapshotCIDS_loop fuel nd n acc
    = Returned (acc ++ map VLink cs ++ [VStr "undefined"])%list.
Proof.
  induction 1 as [s Hs | s c ps next cs Hs Hc Hnext IH]; intros [|fuel] acc Hlt;
    try (inversion Hlt; fail).
  - cbn. rewrite Hs. reflexivity.
  - cbn. rewrite Hs. cbn. rewrite Hc.
    rewrite IH by (simpl in Hlt; apply PeanoNat.lt_S_n; exact Hlt).
    rewrite <- app_assoc. reflexivity.
Qed.

(** X5.  On a history whose first-parent chain ends at a snapshot with
    [parents] equal to the string ['undefined'], [buildSnapshotCIDS]
    returns, given fuel beyond the length of the chain, the links of the
    chain from nearest to farthest followed by ['undefined']; the snapshot
    it starts from is not in the list. *)
Theorem buildSnapshotCIDS_returns_chain nd n cs fuel :
  first_parent_chain nd n cs ->
  length cs < fuel ->
  buildSnapshotCIDS fuel nd n = Returned (map VLink cs ++ [VStr "undefined"])%list.
Proof.
  intros Hchain Hlt. unfold buildSnapshotCIDS.
  rewrite (buildSnapshotCIDS_loop_chain nd n cs Hchain fuel [] Hlt). reflexivity.
Qed.

Lemma buildSnapshotCIDS_returns_chain_witness :
  buildSnapshotCIDS 2 (History.store (ParentsString "undefined"))
    (History.commit "m3" "T3" (ParentsLinks ["C1"]))
  = Returned [VLink "C1"; VStr "undefined"].
Proof.
  apply (buildSnapshotCIDS_returns_chain (History.store (ParentsString "undefined"))
           (History.commit "m3" "T3" (ParentsLinks ["C1"])) ["C1"] 2).
  - apply (chain_step _ _ "C1" [] (History.commit "m1" "T1" (ParentsString "undefined"))).
    + reflexivity.
    + vm_compute. reflexivity.
    + apply chain_root. reflexivity.
  - simpl. apply le_n.
Defined.

Lemma buildSnapshotCIDS_loop_unfold fuel nd n acc :
  buildSnapshotCIDS_loop (S fuel) nd n acc =
  if match parents_of n with
     | ParentsString s => bool_decide (s = "undefined")
     | _ => false
     end
  then Returned (acc ++ [VStr "undefined"])%list
  else
    match first_parent (parents_of n) with
    | Returned p0 =>
        match node_get nd p0 with
        | Returned next => buildSnapshotCIDS_loop fuel nd next (acc ++ [p0])%list
        | Thrown e => Thrown e
        | OutOfFuel => OutOfFuel
        end
    | Thrown e => Thrown e
    | OutOfFuel => OutOfFuel
    end.
Proof.
  cbn [buildSnapshotCIDS_loop].
  destruct (parents_of n) as [|s|ps]; [reflexivity| |reflexivity].
  case_bool_decide as Hs.
  - subst s. reflexivity.
  - do 10 (destruct s as [|[[] [] [] [] [] [] [] []] s]; try reflexivity).
    congruence.
Qed.

Lemma buildSnapshotCIDS_loop_shape nd fuel :
  forall n acc l,
    buildSnapshotCIDS_loop fuel nd n acc = Returned l ->
    exists pre, l = (acc ++ pre ++ [VStr "undefined"])%list /\
                Forall (fun v => returned (node_get nd v) = true) pre.
Proof.
  induction fuel as [|fuel IH]; intros n acc l; [discriminate|].
  rewrite buildSnapshotCIDS_loop_unfold.
  destruct (match parents_of n with
            | ParentsString s => bool_decide (s = "undefined")
            | _ => false
            end).
  - intros [= <-]. exists []. split; [reflexivity | constructor].
  - destruct (first_parent (parents_of n)) as [p0| |] eqn:Hf; try discriminate.
    destruct (node_get nd p0) as [next| |] eqn:Hg; try discriminate.
    intros Hl. destruct (IH _ _ _ Hl) as [pre [-> Hpre]].
    exists (p0 :: pre). split; [rewrite <- app_assoc; reflexivity|].
    constructor; [rewrite Hg; reflexivity | exact Hpre].
Qed.

(** X6.  Whenever [buildSnapshotCIDS] returns, its list ends with the
    string ['undefined'] and every entry before it was resolved in the
    object store. *)
Theorem buildSnapshotCIDS_result_shape fuel nd n l :
  buildSnapshotCIDS fuel nd n = Returned l ->
  exists pre, l = (pre ++ [VStr "undefined"])%list /\
              Forall (fun v => returned (node_get nd v) = true) pre.
Proof.
  intros Hl. exact (buildSnapshotCIDS_loop_shape nd fuel n [] l Hl).
Qed.

Lemma buildSnapshotCIDS_result_shape_witness :
  exists pre, [VLink "C1"; VStr "undefined"] = (pre ++ [VStr "undefined"])%list /\
              Forall (fun v => returned (node_get (History.store (ParentsString "undefined")) v) = true) pre.
Proof.
  apply (buildSnapshotCIDS_result_shape 5 (History.store (ParentsString "undefined"))
           (History.commit "m3" "T3" (ParentsLinks ["C1"]))).
  vm_compute. reflexivity.
Defined.

Lemma js_eqb_link (c : CID) (v : JsVal) : js_eqb (VLink c) v = false.
Proof. destruct v; reflexivity. Qed.

Lemma find_lcaCID_found (o d : list JsVal) :
  Exists (fun u => existsb (js_eqb u) d = true) o ->
  In (find_lcaCID o d) o /\ existsb (js_eqb (find_lcaCID o d)) d = true.
Proof.
  induction o as [|u o IH]; intros Hex; [inversion Hex|].
  simpl. destruct (existsb (js_eqb u) d) eqn:Hu.
  - split; [left; reflexivity | exact Hu].
  - inversion Hex as [? ? Hhere | ? ? Hlater]; subst; [congruence|].
    destruct (IH Hlater) as [Hin Hd]. split; [right; exact Hin | exact Hd].
Qed.

Lemma find_lcaCID_links (cs : list CID) (d : list JsVal) :
  existsb (js_eqb (VStr "undefined")) d = true ->
  find_lcaCID (map VLink cs ++ [VStr "undefined"])%list d = VStr "undefined".
Proof.
  intros Hd. induction cs as [|c cs IH]; simpl.
  - rewrite Hd. reflexivity.
  - assert (Hc : existsb (js_eqb (VLink c)) d = false).
    { clear. induction d as [|v d IHd]; [reflexivity|].
      cbn [existsb]. rewrite js_eqb_link. exact IHd. }
    rewrite Hc. exact IH.
Qed.

(** X7.  On histories whose [parents] fields are arrays of links down to
    a snapshot with [parents = 'undefined'], the ancestor loop of [merge]
    always ends with [lcaCID] equal to the string ['undefined'], however
    the two histories are related: the entries collected on the way are
    link objects, which [indexOf] never finds in the other list, and the
    only entry the two lists share is the final ['undefined']. *)
Theorem lcaCID_is_undefined_string nd n1 n2 cs1 cs2 f1 f2 :
  first_parent_chain nd n1 cs1 ->
  first_parent_chain nd n2 cs2 ->
  length cs1 < f1 ->
  length cs2 < f2 ->
  exists l1 l2,
    buildSnapshotCIDS f1 nd n1 = Returned l1
    /\ buildSnapshotCIDS f2 nd n2 = Returned l2
    /\ find_lcaCID l1 l2 = VStr "undefined".
Proof.
  intros H1 H2 Hf1 Hf2.
  exists (map VLink cs1 ++ [VStr "undefined"])%list,
         (map VLink cs2 ++ [VStr "undefined"])%list.
  unfold buildSnapshotCIDS.
  rewrite (buildSnapshotCIDS_loop_chain nd n1 cs1 H1 f1 [] Hf1).
  rewrite (buildSnapshotCIDS_loop_chain nd n2 cs2 H2 f2 [] Hf2).
  repeat split. apply find_lcaCID_links.
  apply List.existsb_exists. exists (VStr "undefined"). split.
  - apply in_or_app. right. left. reflexivity.
  - reflexivity.
Qed.

Lemma lcaCID_is_undefined_string_witness :
  exists l1 l2,
    buildSnapshotCIDS 2 (History.store (ParentsString "undefined"))
      (History.commit "m4" "T4" (ParentsLinks ["C1"])) = Returned l1
    /\ buildSnapshotCIDS 2 (History.store (ParentsString "undefined"))
      (History.commit "m5" "T5" (ParentsLinks ["C1"])) = Returned l2
    /\ find_lcaCID l1 l2 = VStr "undefined".
Proof.
  apply (lcaCID_is_undefined_string (History.store (ParentsString "undefined"))
           (History.commit "m4" "T4" (ParentsLinks ["C1"]))
           (History.commit "m5" "T5" (ParentsLinks ["C1"])) ["C1"] ["C1"] 2 2).
  - apply (chain_step _ _ "C1" [] (History.commit "m1" "T1" (ParentsString "undefined"))).
    + reflexivity.
    + vm_compute. reflexivity.
    + apply chain_root. reflexivity.
  - apply (chain_step _ _ "C1" [] (History.commit "m1" "T1" (ParentsString "undefined"))).
    + reflexivity.
    + vm_compute. reflexivity.
    + apply chain_root. reflexivity.
  - simpl. apply le_n.
  - simpl. apply le_n.
Defined.

(** X8.  When both snapshot walks of [merge] return, the value picked for
    [lcaCID] is never [undefined]: it is the string ['undefined'] or an
    entry that was resolved in the object store. *)
Theorem lcaCID_defined_after_walks f1 f2 nd n1 n2 l1 l2 :
  buildSnapshotCIDS f1 nd n1 = Returned l1 ->
  buildSnapshotCIDS f2 nd n2 = Returned l2 ->
  find_lcaCID l1 l2 <> VUndefined
  /\ (find_lcaCID l1 l2 = VStr "undefined"
      \/ returned (node_get nd (find_lcaCID l1 l2)) = true).
Proof.
  intros H1 H2.
  destruct (buildSnapshotCIDS_loop_shape nd f1 n1 [] l1 H1) as [pre1 [E1 R1]].
  destruct (buildSnapshotCIDS_loop_shape nd f2 n2 [] l2 H2) as [pre2 [E2 R2]].
  simpl in E1, E2. subst l1 l2.
  assert (Hex : Exists (fun u => existsb (js_eqb u) (pre2 ++ [VStr "undefined"]) = true)
                  (pre1 ++ [VStr "undefined"])).
  { apply List.Exists_exists. exists (VStr "undefined"). split.
    - apply in_or_app. right. left. reflexivity.
    - apply List.existsb_exists. exists (VStr "undefined"). split.
      + apply in_or_app. right. left. reflexivity.
      + reflexivity. }
  destruct (find_lcaCID_found _ _ Hex) as [Hin _].
  set (v := find_lcaCID _ _) in *.
  assert (Hv : v = VStr "undefined" \/ returned (node_get nd v) = true).
  { apply in_app_or in Hin. destruct Hin as [Hin | [Hin | []]].
    - right. rewrite List.Forall_forall in R1. apply R1. exact Hin.
    - left. symmetry. exact Hin. }
  split; [|exact Hv].
  intros Hu. destruct Hv as [Hv | Hv]; rewrite Hu in Hv; discriminate Hv.
Qed.

Lemma lcaCID_defined_after_walks_witness :
  find_lcaCID [VLink "C1"; VStr "undefined"] [VLink "C1"; VStr "undefined"] <> VUndefined
  /\ (find_lcaCID [VLink "C1"; VStr "undefined"] [VLink "C1"; VStr "undefined"]
      = VStr "undefined"
      \/ returned (node_get (History.store (ParentsString "undefined"))
                     (find_lcaCID [VLink "C1"; VStr "undefined"]
                                  [VLink "C1"; VStr "undefined"])) = true).
Proof.
  apply (lcaCID_defined_after_walks 5 5 (History.store (ParentsString "undefined"))
           (History.commit "m4" "T4" (ParentsLinks ["C1"]))
           (History.commit "m5" "T5" (ParentsLinks ["C1"]))).
  - vm_compute. reflexivity.
  - vm_compute. reflexivity.
Defined.


(** ** Further properties of checkout and merge *)

Lemma keeps_bind {A B} (c : Op A) (k : A -> Op B) :
  keeps_refs c -> (forall a, keeps_refs (k a)) -> keeps_refs (bind c k).
Proof.
  intros Hc Hk l. unfold bind. specialize (Hc l).
  destruct (c l) as [[a|e|] l1]; simpl in Hc.
  - destruct (Hk a l1) as [Hn [Hb Hcur]]. destruct Hc as [Hn1 [Hb1 Hcur1]].
    repeat split; congruence.
  - exact Hc.
  - exact Hc.
Qed.

Lemma keeps_lift {A} (o : Outcome A) : keeps_refs (lift o).
Proof. intros l. repeat split. Qed.

Lemma keeps_ret {A} (a : A) : keeps_refs (ret a).
Proof. intros l. repeat split. Qed.

Lemma keeps_update_wd fuel b n : keeps_refs (update_wd fuel b n).
Proof. intros l. repeat split. Qed.

Lemma keeps_reinitialize fuel t : keeps_refs (reinitialize fuel t).
Proof.
  intros l. unfold reinitialize.
  destruct (index_reinitialize fuel (node l) t); repeat split.
Qed.

Lemma bind_switch (c : Op unit) (name : string) (l : Loom) :
  keeps_refs c ->
  node (bind c (fun _ => modify (set_currentBranchName name)) l).2 = node l
  /\ branches (bind c (fun _ => modify (set_currentBranchName name)) l).2 = branches l
  /\ currentBranchName (bind c (fun _ => modify (set_currentBranchName name)) l).2
     = if returned (bind c (fun _ => modify (set_currentBranchName name)) l).1
       then name else currentBranchName l.
Proof.
  intros Hk. unfold bind. specialize (Hk l).
  destruct (c l) as [[[]|e|] l1]; simpl in Hk |- *;
    destruct Hk as [Hn [Hb Hc]]; repeat split; assumption.
Qed.

(** X9.  Naming a branch that does not exist makes [checkout] and [merge]
    throw the unknown-branch error, whatever the state of the index; the
    index update has run, nothing else has changed. *)
Theorem unknown_branch_error cid_of fuel (name : string) (l : Loom) :
  branches l !! name = None ->
  checkout fuel name l
  = (Thrown (Error ("Branch " ++ name ++ " does not exist")), (update_index l).2)
  /\ merge cid_of fuel name l
  = (Thrown (Error ("Branch " ++ name ++ " does not exist")), (update_index l).2).
Proof.
  intros Hnone.
  unfold checkout, merge, update_index. rewrite !bind_modify, !bind_gets.
  unfold id. cbv beta. unfold branch_exists.
  change (branches (set_index (index_update (index l) (wdir l)) l)) with (branches l).
  rewrite bool_decide_eq_false_2; [split; reflexivity|].
  rewrite Hnone. intros [x Hx]. discriminate Hx.
Qed.

Lemma unknown_branch_error_witness :
  (checkout 20 "nowhere" (History.divergent ParentsAbsent)).1
  = Thrown (Error "Branch nowhere does not exist")
  /\ (merge label_cid 20 "nowhere" (History.divergent ParentsAbsent)).1
  = Thrown (Error "Branch nowhere does not exist").
Proof.
  destruct (unknown_branch_error label_cid 20 "nowhere" (History.divergent ParentsAbsent))
    as [Hc Hm].
  - vm_compute. reflexivity.
  - rewrite Hc, Hm. split; reflexivity.
Defined.

Lemma checkout_refs fuel (name : string) (l : Loom) :
  node (checkout fuel name l).2 = node l
  /\ branches (checkout fuel name l).2 = branches l
  /\ currentBranchName (checkout fuel name l).2
     = if returned (checkout fuel name l).1 then name else currentBranchName l.
Proof.
  unfold checkout, update_index. rewrite bind_modify, bind_gets.
  unfold id. cbv beta.
  set (l' := set_index _ l).
  destruct (negb (branch_exists l' name)); [repeat split|].
  destruct (index_unsnapshot (index l')); [|repeat split].
  destruct (index_modified (index l')); [|repeat split].
  rewrite bind_branch_head.
  destruct (branches l' !! name) as [newHead|]; [|repeat split].
  rewrite bind_head.
  destruct (branches l' !! currentBranchName l') as [baseHead|]; [|repeat split].
  match goal with
  | |- context [bind ?c _ l'] =>
      assert (Hk : keeps_refs c); [| exact (bind_switch c name l' Hk) ]
  end.
  destruct (negb (bool_decide (newHead = "undefined"))).
  - apply keeps_bind; [apply keeps_lift|]. intros newTree.
    apply keeps_bind.
    + destruct (negb (bool_decide (baseHead = "undefined")));
        [apply keeps_lift | apply keeps_ret].
    + intros baseTree. apply keeps_bind; [apply keeps_update_wd|].
      intros _. apply keeps_reinitialize.
  - apply keeps_reinitialize.
Qed.

(** X10.  [checkout] never writes to the object store and never moves a
    branch head; the current branch becomes the named branch exactly when
    the call returns, and stays the same when it throws. *)
Theorem checkout_frame fuel (name : string) (l : Loom) :
  node (checkout fuel name l).2 = node l
  /\ branches (checkout fuel name l).2 = branches l
  /\ currentBranchName (checkout fuel name l).2
     = if returned (checkout fuel name l).1 then name else currentBranchName l.
Proof. exact (checkout_refs fuel name l). Qed.

(** X11.  Checking out a branch that has no snapshot yet (head
    ['undefined']) from a clean workspace empties the index and makes the
    branch current, and leaves every file of the working directory on
    disk: [updateWorkingDirectory] is not called on that path. *)
Theorem checkout_empty_branch_keeps_files fuel (name h : string) (l : Loom) :
  let l' := (update_index l).2 in
  branches l !! name = Some "undefined" ->
  branches l !! currentBranchName l = Some h ->
  index_unsnapshot (index l') = [] ->
  index_modified (index l') = [] ->
  checkout (S fuel) name l
  = (Returned tt, set_currentBranchName name (set_index [] l'))
  /\ wdir (checkout (S fuel) name l).2 = wdir l.
Proof.
  intros l' Hname Hcur Hu Hm.
  assert (E : checkout (S fuel) name l
              = (Returned tt, set_currentBranchName name (set_index [] l'))).
  { unfold checkout, update_index. rewrite bind_modify, bind_gets.
    unfold id. cbv beta.
    change (set_index (index_update (index l) (wdir l)) l) with l'.
    unfold branch_exists. change (branches l') with (branches l).
    rewrite Hname. rewrite bool_decide_eq_true_2 by (eexists; reflexivity).
    cbv iota. unfold negb at 1. rewrite Hu, Hm.
    rewrite bind_branch_head. change (branches l') with (branches l). rewrite Hname.
    rewrite bind_head. change (branches l') with (branches l).
    change (currentBranchName l') with (currentBranchName l). rewrite Hcur.
    reflexivity. }
  split; [exact E | rewrite E; reflexivity].
Qed.

Lemma checkout_empty_branch_witness :
  let l := mkLoom (History.store ParentsAbsent) {[ "a.txt" := "hello" ]}
             [("a.txt", mkIndexEntry "hello" "hello" "hello")]
             (list_to_map [("master", "C1"); ("fresh", "undefined")]) "master" "alice" in
  checkout 1 "fresh" l
  = (Returned tt, set_currentBranchName "fresh" (set_index [] (update_index l).2))
  /\ wdir (checkout 1 "fresh" l).2 = wdir l.
Proof.
  apply (checkout_empty_branch_keeps_files 0 "fresh" "C1"
           (mkLoom (History.store ParentsAbsent) {[ "a.txt" := "hello" ]}
              [("a.txt", mkIndexEntry "hello" "hello" "hello")]
              (list_to_map [("master", "C1"); ("fresh", "undefined")]) "master" "alice")).
  - vm_compute. reflexivity.
  - vm_compute. reflexivity.
  - vm_compute. reflexivity.
  - vm_compute. reflexivity.
Defined.

(** X12.  Merging while the current branch has no snapshot yet (head
    ['undefined'], a string the store does not resolve) throws at the
    first read of the origin head, from a clean workspace and for any
    existing destination branch. *)
Theorem merge_from_empty_branch_throws cid_of fuel (name d : string) (l : Loom) :
  let l' := (update_index l).2 in
  branches l !! name = Some d ->
  branches l !! currentBranchName l = Some "undefined" ->
  node l !! "undefined" = None ->
  index_unsnapshot (index l') = [] ->
  index_modified (index l') = [] ->
  merge cid_of fuel name l = (Thrown (MissingObject (VStr "undefined")), l').
Proof.
  intros l' Hname Hcur Hstore Hu Hm.
  unfold merge, update_index. rewrite bind_modify, bind_gets.
  unfold id. cbv beta.
  change (set_index (index_update (index l) (wdir l)) l) with l'.
  unfold branch_exists. change (branches l') with (branches l).
  rewrite Hname. rewrite bool_decide_eq_true_2 by (eexists; reflexivity).
  cbv iota. unfold negb at 1. rewrite Hu, Hm.
  rewrite bind_branch_head. change (branches l') with (branches l). rewrite Hname.
  rewrite bind_head. change (branches l') with (branches l).
  change (currentBranchName l') with (currentBranchName l). rewrite Hcur.
  rewrite bind_lift. unfold node_get. change (node l') with (node l).
  rewrite Hstore. reflexivity.
Qed.

Lemma merge_from_empty_branch_witness :
  let l := mkLoom (History.store ParentsAbsent) ∅ []
             (list_to_map [("master", "C1"); ("fresh", "undefined")]) "fresh" "alice" in
  merge label_cid 20 "master" l = (Thrown (MissingObject (VStr "undefined")), (update_index l).2).
Proof.
  apply (merge_from_empty_branch_throws label_cid 20 "master" "C1"
           (mkLoom (History.store ParentsAbsent) ∅ []
              (list_to_map [("master", "C1"); ("fresh", "undefined")]) "fresh" "alice")).
  - vm_compute. reflexivity.
  - vm_compute. reflexivity.
  - vm_compute. reflexivity.
  - vm_compute. reflexivity.
  - vm_compute. reflexivity.
Defined.


(** ** Further properties of updateWorkingDirectory *)

Lemma obj_get_absent (cs : list (string * CID)) (k : string) :
  ~ In k (map fst cs) -> obj_get cs k = None.
Proof.
  induction cs as [|[k' v] cs IH]; simpl; [reflexivity|].
  intros Hn. case_bool_decide as Hk; [exfalso; apply Hn; left; exact Hk|].
  apply IH. intros Hin. apply Hn. right. exact Hin.
Qed.

Lemma obj_get_present (cs : list (string * CID)) (k : string) (c : CID) :
  List.NoDup (map fst cs) -> In (k, c) cs -> obj_get cs k = Some c.
Proof.
  induction cs as [|[k' v] cs IH]; simpl; [intros _ []|].
  intros Hnd [Hin | Hin].
  - injection Hin as -> ->. rewrite bool_decide_eq_true_2; reflexivity.
  - inversion Hnd as [|? ? Hnotin Hnd']; subst.
    case_bool_decide as Hk.
    + subst k'. exfalso. apply Hnotin.
      change k with (fst (k, c)). apply in_map. exact Hin.
    + apply IH; assumption.
Qed.

Lemma obj_get_In (cs : list (string * CID)) (k : string) (c : CID) :
  obj_get cs k = Some c -> In (k, c) cs.
Proof.
  induction cs as [|[k' v] cs IH]; simpl; [discriminate|].
  case_bool_decide as Hk.
  - intros [= ->]. left. subst k'. reflexivity.
  - intros Hg. right. exact (IH Hg).
Qed.

Lemma obj_get_delete (cs : list (string * CID)) (k k' : string) :
  obj_get (obj_delete cs k') k = if bool_decide (k' = k) then None else obj_get cs k.
Proof.
  induction cs as [|[q v] cs IH]; simpl.
  - case_bool_decide; reflexivity.
  - destruct (bool_decide (q = k')) eqn:Hq.
    + apply bool_decide_eq_true_1 in Hq. subst q. rewrite IH.
      case_bool_decide; reflexivity.
    + simpl. rewrite IH. apply bool_decide_eq_false_1 in Hq.
      case_bool_decide as Hk'; case_bool_decide as Hqk; try reflexivity.
      subst. contradiction.
Qed.

Lemma obj_delete_keys (cs : list (string * CID)) (e k : string) :
  In k (map fst (obj_delete cs e)) -> In k (map fst cs) /\ k <> e.
Proof.
  induction cs as [|[q v] cs IH]; simpl; [intros []|].
  case_bool_decide as Hq.
  - intros Hin. destruct (IH Hin) as [Hk Hne]. split; [right; exact Hk | exact Hne].
  - simpl. intros [Hin | Hin].
    + subst q. split; [left; reflexivity | exact Hq].
    + destruct (IH Hin) as [Hk Hne]. split; [right; exact Hk | exact Hne].
Qed.

Lemma delete_all_keys (entries : list string) :
  forall cs, (forall k, In k (map fst cs) -> In k entries) ->
             fold_left obj_delete entries cs = [].
Proof.
  induction entries as [|e entries IH]; intros cs Hall; simpl.
  - destruct cs as [|[k v] cs]; [reflexivity|].
    destruct (Hall k (or_introl eq_refl)).
  - apply IH. intros k Hk. destruct (obj_delete_keys cs e k Hk) as [Hin Hne].
    destruct (Hall k Hin) as [He | He]; [congruence | exact He].
Qed.

Lemma update_loop_same recurse fuel nd n wd :
  forall entries b,
    List.NoDup entries ->
    (forall k, In k entries ->
       exists c, obj_get (tree_children n) k = Some c /\
                 obj_get (tree_children b) k = Some c) ->
    update_loop recurse fuel nd n entries b wd
    = (Returned tt,
       mkTreeObj (tree_type b) (tree_path b) (fold_left obj_delete entries (tree_children b)),
       wd).
Proof.
  induction entries as [|k entries IH]; intros b Hnd Hall; cbn [update_loop fold_left].
  - destruct b; reflexivity.
  - destruct (Hall k (or_introl eq_refl)) as [c [Hn Hb]].
    unfold update_entry. rewrite Hn, (js_prop_own _ _ _ Hb).
    rewrite bool_decide_eq_true_2 by reflexivity.
    inversion Hnd as [|? ? Hnotin Hnd']; subst.
    rewrite (IH (tree_delete b k) Hnd'); [reflexivity|].
    intros k' Hk'. destruct (Hall k' (or_intror Hk')) as [c' [Hn' Hb']].
    exists c'. split; [exact Hn'|].
    cbn [tree_delete tree_children]. rewrite obj_get_delete.
    rewrite bool_decide_eq_false_2; [exact Hb'|].
    intros ->. contradiction.
Qed.

(** X13.  Reconciling a tree with a tree of the same children (checking
    out the snapshot that is already checked out) downloads nothing and
    removes nothing: the working directory is unchanged, and the base
    object handed in ends up without children. *)
Theorem updateWorkingDirectory_same_children_noop fuel nd (b n : TreeObj) (wd : WorkDir) :
  List.NoDup (map fst (tree_children n)) ->
  tree_children b = tree_children n ->
  updateWorkingDirectory (S fuel) nd b n wd
  = mkUpdateCall (Returned tt) (mkTreeObj None None []) (delete_meta n) wd.
Proof.
  intros Hnd Hb. cbn [updateWorkingDirectory].
  rewrite (update_loop_same (updateWorkingDirectory fuel nd) fuel nd (delete_meta n) wd
             (for_in_keys (tree_children (delete_meta n))) (delete_meta b)).
  - rewrite delete_all_keys; [reflexivity|].
    intros k Hk. cbn [delete_meta tree_children] in *. rewrite Hb in Hk.
    apply for_in_keys_In. exact Hk.
  - apply (Permutation_NoDup (l := map fst (tree_children n))); [|exact Hnd].
    symmetry. apply for_in_keys_perm.
  - intros k Hk. cbn [delete_meta tree_children] in *.
    apply (proj1 (for_in_keys_In _ _)) in Hk.
    destruct (obj_get_of_key _ _ Hk) as [c Hc].
    exists c. split; [exact Hc | rewrite Hb; exact Hc].
Qed.

Lemma updateWorkingDirectory_same_children_witness :
  let t := mkTreeObj (Some "tree") (Some ".") [("a.txt", "Fa"); ("m.txt", "Fm")] in
  updateWorkingDirectory 1 ∅ t t {[ "a.txt" := "hello" ]}
  = mkUpdateCall (Returned tt) (mkTreeObj None None []) (delete_meta t) {[ "a.txt" := "hello" ]}.
Proof.
  apply (updateWorkingDirectory_same_children_noop 0 ∅
           (mkTreeObj (Some "tree") (Some ".") [("a.txt", "Fa"); ("m.txt", "Fm")])
           (mkTreeObj (Some "tree") (Some ".") [("a.txt", "Fa"); ("m.txt", "Fm")])).
  - simpl. constructor.
    + simpl. intros [H | []]. discriminate H.
    + constructor; [intros [] | constructor].
  - reflexivity.
Defined.

Lemma update_entry_deletes recurse fuel nd n entry b wd c u b' wd' :
  obj_get (tree_children n) entry = Some c ->
  update_entry recurse fuel nd n entry b wd = (Returned u, b', wd') ->
  b' = tree_delete b entry.
Proof.
  intros Hn. unfold update_entry. rewrite Hn.
  repeat case_match; intros; simplify_eq; reflexivity.
Qed.

Lemma update_loop_deletes recurse fuel nd n :
  forall entries b wd u b' wd',
    (forall e, In e entries -> In e (map fst (tree_children n))) ->
    update_loop recurse fuel nd n entries b wd = (Returned u, b', wd') ->
    forall k, obj_get (tree_children b') k
              = if bool_decide (k ∈ entries) then None else obj_get (tree_children b) k.
Proof.
  induction entries as [|e entries IH]; intros b wd u b' wd' Hkeys; cbn [update_loop].
  - intros [= _ <- _] k. rewrite bool_decide_eq_false_2 by apply not_elem_of_nil.
    reflexivity.
  - destruct (update_entry recurse fuel nd n e b wd) as [[[v| |] b1] wd1] eqn:He;
      try discriminate.
    intros Hl k.
    destruct (obj_get_of_key (tree_children n) e (Hkeys e (or_introl eq_refl))) as [c Hc].
    pose proof (update_entry_deletes _ _ _ _ _ _ _ _ _ _ _ Hc He) as ->.
    rewrite (IH _ _ _ _ _ (fun x Hx => Hkeys x (or_intror Hx)) Hl k).
    cbn [tree_delete tree_children]. rewrite obj_get_delete.
    rewrite (bool_decide_ext (k ∈ e :: entries) (k = e \/ k ∈ entries))
      by apply elem_of_cons.
    repeat case_bool_decide; try reflexivity; exfalso; naive_solver.
Qed.

(** X14.  When [updateWorkingDirectory] returns, the base object it was
    given has lost exactly the entries named in the new tree: what is left
    in it are the entries found in the base tree only. *)
Theorem updateWorkingDirectory_base_after fuel nd (b n : TreeObj) (wd : WorkDir) (k : string) :
  upd_outcome (updateWorkingDirectory fuel nd b n wd) = Returned tt ->
  obj_get (tree_children (upd_base (updateWorkingDirectory fuel nd b n wd))) k
  = if bool_decide (k ∈ map fst (tree_children n)) then None
    else obj_get (tree_children b) k.
Proof.
  destruct fuel as [|fuel]; [discriminate|]. simpl.
  destruct (update_loop _ _ _ _ _ _ _) as [[[u| |] b1] wd1] eqn:Hl;
    try (simpl; discriminate).
  destruct (remove_loop nd (for_in_entries (tree_children b1)) wd1) as [out wd2].
  simpl. intros _.
  rewrite (update_loop_deletes _ _ _ _ _ _ _ _ _ _
             (fun e He => proj1 (for_in_keys_In _ _) He) Hl k).
  apply (f_equal (fun c : bool => if c then None else obj_get (tree_children b) k)).
  apply bool_decide_ext. rewrite !list_elem_of_In. apply for_in_keys_In.
Qed.

Lemma updateWorkingDirectory_base_after_witness :
  let st := History.store ParentsAbsent in
  let t4 := mkTreeObj (Some "tree") (Some ".") [("a.txt", "Fa"); ("m.txt", "Fm")] in
  let t5 := mkTreeObj (Some "tree") (Some ".") [("a.txt", "Fa"); ("o.txt", "Fo")] in
  obj_get (tree_children (upd_base (updateWorkingDirectory 3 st t4 t5 ∅))) "m.txt"
  = if bool_decide ("m.txt" ∈ map fst (tree_children t5)) then None
    else obj_get (tree_children t4) "m.txt".
Proof.
  apply (updateWorkingDirectory_base_after 3 (History.store ParentsAbsent)
           (mkTreeObj (Some "tree") (Some ".") [("a.txt", "Fa"); ("m.txt", "Fm")])
           (mkTreeObj (Some "tree") (Some ".") [("a.txt", "Fa"); ("o.txt", "Fo")]) ∅ "m.txt").
  vm_compute. reflexivity.
Defined.

Lemma fs_rm_removed (wd : WorkDir) (p q : string) :
  q = p \/ String.prefix (p ++ "/") q = true -> fs_rm wd p !! q = None.
Proof.
  intros Hq. unfold fs_rm. apply map_lookup_filter_None. right.
  intros x _ [Hne Hpre]. cbn [fst] in Hne, Hpre.
  destruct Hq as [Hq | Hq]; [exact (Hne Hq) | rewrite Hq in Hpre; discriminate Hpre].
Qed.

Lemma fs_rm_absent (wd : WorkDir) (p q : string) :
  wd !! q = None -> fs_rm wd p !! q = None.
Proof.
  intros Hq. unfold fs_rm. apply map_lookup_filter_None. left. exact Hq.
Qed.

Lemma remove_loop_absent nd :
  forall remaining wd u wd' q,
    remove_loop nd remaining wd = (Returned u, wd') ->
    wd !! q = None -> wd' !! q = None.
Proof.
  induction remaining as [|[k c] rest IH]; intros wd u wd' q; simpl.
  - intros [= _ <-] Hq. exact Hq.
  - destruct (node_get_path nd c) as [p| |]; try discriminate.
    intros Hl Hq. apply (IH _ _ _ _ Hl). apply fs_rm_absent. exact Hq.
Qed.

Lemma remove_loop_removes nd :
  forall remaining wd u wd' k c p q,
    remove_loop nd remaining wd = (Returned u, wd') ->
    In (k, c) remaining ->
    node_get_path nd c = Returned p ->
    q = path_join "." p \/ String.prefix (path_join "." p ++ "/") q = true ->
    wd' !! q = None.
Proof.
  induction remaining as [|[k0 c0] rest IH]; intros wd u wd' k c p q; simpl; [intros _ []|].
  destruct (node_get_path nd c0) as [p0| |] eqn:Hp0; try discriminate.
  intros Hl [Hin | Hin] Hp Hq.
  - injection Hin as -> ->. rewrite Hp in Hp0. injection Hp0 as <-.
    apply (remove_loop_absent nd _ _ _ _ _ Hl). apply fs_rm_removed. exact Hq.
  - exact (IH _ _ _ _ _ _ _ Hl Hin Hp Hq).
Qed.

(** X15.  When [updateWorkingDirectory] returns, every entry that the
    base tree has and the new tree has not is gone from the working
    directory: nothing is left at the path recorded in the node behind
    that entry, nor anywhere below that path. *)
Theorem updateWorkingDirectory_removes_base_only
    fuel nd (b n : TreeObj) (wd : WorkDir) (k : string) (c : CID) (p q : string) :
  upd_outcome (updateWorkingDirectory fuel nd b n wd) = Returned tt ->
  obj_get (tree_children b) k = Some c ->
  obj_get (tree_children n) k = None ->
  node_get_path nd c = Returned p ->
  q = path_join "." p \/ String.prefix (path_join "." p ++ "/") q = true ->
  upd_wdir (updateWorkingDirectory fuel nd b n wd) !! q = None.
Proof.
  destruct fuel as [|fuel]; [discriminate|]. cbn [updateWorkingDirectory].
  destruct (update_loop _ _ _ _ _ _ _) as [[[u| |] b1] wd1] eqn:Hl;
    try (simpl; discriminate).
  destruct (remove_loop nd (for_in_entries (tree_children b1)) wd1) as [out wd2] eqn:Hr.
  cbn [upd_outcome upd_wdir].
  intros -> Hb Hn Hp Hq.
  apply (remove_loop_removes nd _ _ _ _ k c p q Hr); [|exact Hp|exact Hq].
  apply (Permutation_in _ (Permutation_sym (for_in_entries_perm _))).
  apply obj_get_In.
  rewrite (update_loop_deletes _ _ _ _ _ _ _ _ _ _
             (fun e He => proj1 (for_in_keys_In _ _) He) Hl k).
  rewrite bool_decide_eq_false_2; [exact Hb|].
  intros Hin. apply list_elem_of_In in Hin.
  apply (proj1 (for_in_keys_In _ _)) in Hin.
  destruct (obj_get_of_key _ _ Hin) as [c' Hc'].
  cbn [delete_meta tree_children] in Hc'. congruence.
Qed.

Lemma updateWorkingDirectory_removes_base_only_witness :
  let st : Store :=
    list_to_map
      [ ("Fa", NFile (mkFileObj "a.txt" "hello"));
        ("Fq", NFile (mkFileObj "d/q.txt" "Q"));
        ("Td", NTree (mkTreeObj (Some "tree") (Some "d") [("q.txt", "Fq")])) ] in
  let base := mkTreeObj (Some "tree") (Some ".") [("a.txt", "Fa"); ("d", "Td")] in
  let new := mkTreeObj (Some "tree") (Some ".") [("a.txt", "Fa")] in
  upd_wdir (updateWorkingDirectory 3 st base new
              (list_to_map [("a.txt", "hello"); ("d/q.txt", "Q")]))
    !! "d/q.txt" = None.
Proof.
  apply (updateWorkingDirectory_removes_base_only 3
           (list_to_map
              [ ("Fa", NFile (mkFileObj "a.txt" "hello"));
                ("Fq", NFile (mkFileObj "d/q.txt" "Q"));
                ("Td", NTree (mkTreeObj (Some "tree") (Some "d") [("q.txt", "Fq")])) ])
           (mkTreeObj (Some "tree") (Some ".") [("a.txt", "Fa"); ("d", "Td")])
           (mkTreeObj (Some "tree") (Some ".") [("a.txt", "Fa")])
           (list_to_map [("a.txt", "hello"); ("d/q.txt", "Q")]) "d" "Td" "d" "d/q.txt").
  - vm_compute. reflexivity.
  - reflexivity.
  - reflexivity.
  - vm_compute. reflexivity.
  - right. vm_compute. reflexivity.
Defined.

(** ** Further properties of snapshot and tree *)

Lemma snapshot_without_staged cid_of fuel (msg : string) (l : Loom) :
  index_unsnapshot (index (update_index l).2) = [] ->
  snapshot cid_of fuel msg l = (Thrown (Error "Nothing to snapshot"), (update_index l).2).
Proof.
  intros Hu. unfold snapshot. unfold update_index in *. rewrite bind_modify, bind_gets.
  unfold modify in Hu. cbn [snd] in Hu. cbv beta. rewrite Hu. reflexivity.
Qed.

(** X16.  With nothing staged that differs from the last snapshot,
    [snapshot] throws 'Nothing to snapshot'; the index update has run,
    and the object store, the branch heads and the working directory are
    untouched. *)
Theorem snapshot_nothing_to_snapshot cid_of fuel (msg : string) (l : Loom) :
  index_unsnapshot (index (update_index l).2) = [] ->
  snapshot cid_of fuel msg l = (Thrown (Error "Nothing to snapshot"), (update_index l).2)
  /\ node (snapshot cid_of fuel msg l).2 = node l
  /\ branches (snapshot cid_of fuel msg l).2 = branches l
  /\ wdir (snapshot cid_of fuel msg l).2 = wdir l.
Proof.
  intros Hu. rewrite (snapshot_without_staged cid_of fuel msg l Hu). repeat split.
Qed.

Lemma snapshot_nothing_to_snapshot_witness :
  (snapshot label_cid 20 "again" (History.divergent ParentsAbsent)).1
  = Thrown (Error "Nothing to snapshot").
Proof.
  destruct (snapshot_nothing_to_snapshot label_cid 20 "again" (History.divergent ParentsAbsent))
    as [E _].
  - vm_compute. reflexivity.
  - rewrite E. reflexivity.
Defined.

Lemma decode_parents_returned (p : ParentsField) (ps : list Decoded) :
  decode_parents p = Returned ps ->
  p = ParentsLinks [] \/ p = ParentsString "".
Proof.
  destruct p as [|s|[|c cs]]; cbn [decode_parents]; try discriminate.
  - destruct s as [|c rest]; [intros _; right; reflexivity|].
    destruct (array_index (String c "")) as [i|]; [|discriminate].
    destruct (i <? _)%N; discriminate.
  - intros _. left. reflexivity.
Qed.

Lemma fromIPLD_snapshot_parents fuel nd (hs : SnapshotObj) (d : Decoded) :
  fromIPLD fuel nd (NSnapshot hs) = Returned d ->
  snap_parents hs = ParentsLinks [] \/ snap_parents hs = ParentsString "".
Proof.
  destruct fuel as [|fuel]; [discriminate|]. cbn [fromIPLD].
  destruct (node_get nd (VStr (snap_tree hs))) as [n| |]; try discriminate.
  destruct (fromIPLD fuel nd n) as [t| |]; try discriminate.
  destruct (decode_parents (snap_parents hs)) as [ps| |] eqn:Hp; try discriminate.
  intros _. exact (decode_parents_returned _ _ Hp).
Qed.

(** X17.  When [snapshot] returns, the snapshot carries the message and
    the configured author; its [parents] holds the previous head of the
    current branch alone, or is absent when that head was ['undefined'];
    the snapshot is stored under its CID and the current branch, and no
    other branch, now points at that CID; the working directory and the
    current branch name are unchanged.  It returns on top of a previous
    head only if [fromIPLD] could decode that head, that is, only if the
    head is a node whose [parents], when it is a snapshot, is an empty
    array or an empty string. *)
Theorem snapshot_success cid_of fuel (msg : string) (l l' : Loom) (s : SnapshotObj) :
  snapshot cid_of fuel msg l = (Returned s, l') ->
  snap_message s = msg /\ snap_author s = author l
  /\ (exists h, branches l !! currentBranchName l = Some h /\
                snap_parents s = (if bool_decide (h = "undefined")
                                  then ParentsAbsent else ParentsLinks [h]) /\
                (h <> "undefined" ->
                 exists st object,
                   node l' = <[cid_of (NSnapshot s) := NSnapshot s]> st /\
                   node_get st (VStr h) = Returned object /\
                   match object with
                   | NSnapshot hs =>
                       snap_parents hs = ParentsLinks [] \/ snap_parents hs = ParentsString ""
                   | _ => True
                   end))
  /\ node l' !! cid_of (NSnapshot s) = Some (NSnapshot s)
  /\ branches l' = <[currentBranchName l := cid_of (NSnapshot s)]> (branches l)
  /\ wdir l' = wdir l /\ currentBranchName l' = currentBranchName l.
Proof.
  unfold snapshot, update_index. rewrite bind_modify, bind_gets.
  cbv beta. set (l1 := set_index _ l).
  destruct (index_unsnapshot (index l1)) as [|u us]; [discriminate|].
  unfold bind at 1. unfold tree at 1.
  destruct (tree_of_staged _ _ _) as [[t ix]| |]; try discriminate.
  unfold bind at 1. unfold tree_put at 1. cbn [node set_index].
  destruct (mem_put cid_of t (node l1)) as [treeCID st] eqn:Hput.
  rewrite bind_head. cbn [branches currentBranchName set_node set_index].
  change (branches l1) with (branches l).
  change (currentBranchName l1) with (currentBranchName l).
  destruct (branches l !! currentBranchName l) as [h|] eqn:Hh; [|discriminate].
  destruct (bool_decide (h = "undefined")) eqn:Hb; cbn [negb].
  - unfold bind, ret, gets, node_put, set_head, modify. cbn.
    intros [= <- <-]. cbn. repeat split; try reflexivity.
    + exists h. split; [reflexivity|]. rewrite Hb. split; [reflexivity|].
      intros Hne. apply bool_decide_eq_true_1 in Hb. contradiction.
    + apply lookup_insert_eq.
  - unfold bind, ret, gets, lift. cbn [node set_node set_index].
    destruct (node_get st (VStr h)) as [hn| |] eqn:Hget; try discriminate.
    destruct (fromIPLD fuel st hn) as [dec| |] eqn:Hdec; try discriminate.
    unfold node_put, set_head, modify. cbn.
    intros [= <- <-]. cbn. repeat split; try reflexivity.
    + exists h. split; [reflexivity|]. rewrite Hb. split; [reflexivity|].
      intros _. exists st, hn. split; [reflexivity|]. split; [exact Hget|].
      destruct hn as [hs|ht|hf]; [|exact I|exact I].
      exact (fromIPLD_snapshot_parents _ _ _ _ Hdec).
    + apply lookup_insert_eq.
Qed.

Lemma snapshot_success_witness :
  exists s l',
    snapshot label_cid 5 "m1" staged_first = (Returned s, l')
    /\ snap_parents s = ParentsAbsent
    /\ branches l' !! "master" = Some (label_cid (NSnapshot s)).
Proof.
  destruct (snapshot label_cid 5 "m1" staged_first) as [[s| |] l'] eqn:E;
    try (vm_compute in E; discriminate E).
  exists s, l'.
  destruct (snapshot_success label_cid 5 "m1" staged_first l' s E)
    as [_ [_ [[h [Hh [Hp _]]] [_ [Hb _]]]]].
  split; [reflexivity|]. split.
  - vm_compute in Hh. injection Hh as <-. exact Hp.
  - rewrite Hb. apply lookup_insert_eq.
Defined.

Lemma entry_snapshotted_refl (ix : Index) : Forall2 entry_snapshotted ix ix.
Proof.
  induction ix as [|pe ix IH]; constructor; [|exact IH].
  repeat split. left. reflexivity.
Qed.

Lemma entry_snapshotted_trans (a b c : Index) :
  Forall2 entry_snapshotted a b -> Forall2 entry_snapshotted b c ->
  Forall2 entry_snapshotted a c.
Proof.
  apply Forall2_trans.
  intros x y z [Hp [Hw [Hs Hr]]] [Hp' [Hw' [Hs' Hr']]].
  repeat split; try congruence.
  destruct Hr' as [Hr' | Hr']; [|right; congruence].
  destruct Hr as [Hr | Hr]; [left | right]; congruence.
Qed.

Lemma index_set_snapshotted (ix : Index) (p : string) (e : IndexEntry) :
  index_get ix p = Some e ->
  Forall2 entry_snapshotted ix
    (index_set ix p (mkIndexEntry (ie_wdir e) (ie_stage e) (ie_stage e))).
Proof.
  induction ix as [|[q e0] ix IH]; simpl; [discriminate|].
  case_bool_decide as Hq.
  - intros [= ->]. constructor; [|apply entry_snapshotted_refl].
    subst q. repeat split. right. reflexivity.
  - intros Hg. constructor; [|exact (IH Hg)].
    repeat split. left. reflexivity.
Qed.

Lemma tree_reduce_snapshotted :
  forall names parent ix t ix',
    tree_reduce names parent ix = Returned (t, ix') ->
    Forall2 entry_snapshotted ix ix'.
Proof.
  induction names as [|name rest IH]; intros parent ix t ix'; simpl.
  - intros [= _ <-]. apply entry_snapshotted_refl.
  - destruct parent as [p children | p link]; [|discriminate].
    destruct (mem_get children name) as [c|].
    + destruct (tree_reduce rest c ix) as [[child' ix2]| |] eqn:Hr; try discriminate.
      intros [= _ <-]. exact (IH _ _ _ _ Hr).
    + destruct (index_get ix (path_join p name)) as [e|] eqn:He.
      * destruct (tree_reduce rest _ _) as [[child' ix2]| |] eqn:Hr; try discriminate.
        intros [= _ <-].
        apply (entry_snapshotted_trans _ _ _ (index_set_snapshotted ix _ e He)).
        exact (IH _ _ _ _ Hr).
      * destruct (tree_reduce rest _ ix) as [[child' ix2]| |] eqn:Hr; try discriminate.
        intros [= _ <-]. exact (IH _ _ _ _ Hr).
Qed.

Lemma tree_of_staged_snapshotted :
  forall staged t0 ix t ix',
    tree_of_staged staged t0 ix = Returned (t, ix') ->
    Forall2 entry_snapshotted ix ix'.
Proof.
  induction staged as [|file rest IH]; intros t0 ix t ix'; simpl.
  - intros [= _ <-]. apply entry_snapshotted_refl.
  - destruct (tree_reduce (split_sep file "") t0 ix) as [[t1 ix1]| |] eqn:Hr;
      try discriminate.
    intros Hs.
    exact (entry_snapshotted_trans _ _ _ (tree_reduce_snapshotted _ _ _ _ _ Hr)
             (IH _ _ _ _ Hs)).
Qed.

(** X18.  When [tree()] returns, the index has the same paths in the same
    order, every entry has kept its [wdir] and [stage], and the only
    change an entry can show is [repo] set to its [stage]; the object
    store, the working directory and the branches are untouched. *)
Theorem tree_only_settles_index (l l' : Loom) (t : MemNode) :
  tree l = (Returned t, l') ->
  Forall2 entry_snapshotted (index l) (index l')
  /\ node l' = node l /\ wdir l' = wdir l
  /\ branches l' = branches l /\ currentBranchName l' = currentBranchName l.
Proof.
  unfold tree.
  destruct (tree_of_staged _ _ _) as [[t1 ix1]| |] eqn:Hs; try discriminate.
  intros [= _ <-]. repeat split.
  exact (tree_of_staged_snapshotted _ _ _ _ _ Hs).
Qed.

Lemma tree_only_settles_index_witness :
  exists t l',
    tree staged_edit = (Returned t, l')
    /\ Forall2 entry_snapshotted (index staged_edit) (index l').
Proof.
  destruct (tree staged_edit) as [[t| |] l'] eqn:E; try (vm_compute in E; discriminate E).
  exists t, l'. split; [reflexivity|].
  exact (proj1 (tree_only_settles_index staged_edit l' t E)).
Defined.

(** ** The clean branch of merge *)

Lemma index_set_settled (ix : Index) (p : string) (e : IndexEntry) :
  Forall entry_settled ix -> ie_stage e = ie_repo e ->
  Forall entry_settled (index_set ix p e).
Proof.
  intros Hix He. induction Hix as [|[q e0] ix Hq Hix IH]; simpl.
  - constructor; [exact He | constructor].
  - case_bool_decide; constructor; assumption.
Qed.

Lemma index_collect_settled nd :
  forall fuel cs ix ix',
    index_collect fuel nd cs ix = Returned ix' ->
    Forall entry_settled ix -> Forall entry_settled ix'.
Proof.
  induction fuel as [|fuel IH]; intros cs ix ix'; cbn [index_collect]; [discriminate|].
  destruct cs as [|[k c] cs]; [intros [= <-] H; exact H|].
  destruct (node_get nd (VStr c)) as [[s|t|f]| |]; try discriminate.
  - destruct (index_collect fuel nd (tree_children t) ix) as [ix1| |] eqn:H1;
      try discriminate.
    intros H2 Hix. exact (IH _ _ _ H2 (IH _ _ _ H1 Hix)).
  - intros H2 Hix. apply (IH _ _ _ H2). apply index_set_settled; [exact Hix | reflexivity].
Qed.

Lemma index_update_settled (ix : Index) (wd : WorkDir) :
  Forall entry_settled ix -> index_unsnapshot (index_update ix wd) = [].
Proof.
  intros Hix. unfold index_update, index_unsnapshot.
  rewrite omap_app. apply app_nil. split.
  - induction Hix as [|[q e] ix Hq Hix IH]; simpl; [reflexivity|].
    unfold entry_settled in Hq. simpl in Hq.
    rewrite (bool_decide_eq_true_2 (ie_stage e = ie_repo e) Hq).
    rewrite andb_false_r. exact IH.
  - induction (map_to_list wd) as [|[q c] rest IH]; simpl; [reflexivity|].
    destruct (index_get ix q); simpl; exact IH.
Qed.



(** ** checkout followed by snapshot *)

Lemma settles_bind {A B} (c : Op A) (k : A -> Op B) :
  (forall a, settles_index (k a)) -> settles_index (bind c k).
Proof.
  intros Hk l b l'. unfold bind.
  destruct (c l) as [[a|e|] l1]; try discriminate.
  apply Hk.
Qed.

Lemma settles_reinitialize fuel t : settles_index (reinitialize fuel t).
Proof.
  intros l a l'. unfold reinitialize.
  destruct (index_reinitialize fuel (node l) t) as [ix| |] eqn:Hre; try discriminate.
  intros [= _ <-]. cbn [index set_index].
  apply (index_collect_settled _ _ _ _ _ Hre). constructor.
Qed.

Lemma checkout_settles_index fuel (name : string) : settles_index (checkout fuel name).
Proof.
  intros l a l'.
  unfold checkout, update_index. rewrite bind_modify, bind_gets.
  unfold id. cbv beta.
  set (l1 := set_index _ l).
  destruct (negb (branch_exists l1 name)); [discriminate|].
  destruct (index_unsnapshot (index l1)); [|discriminate].
  destruct (index_modified (index l1)); [|discriminate].
  rewrite bind_branch_head.
  destruct (branches l1 !! name) as [newHead|]; [|discriminate].
  rewrite bind_head.
  destruct (branches l1 !! currentBranchName l1) as [baseHead|]; [|discriminate].
  match goal with
  | |- bind ?c _ l1 = _ -> _ => assert (Hc : settles_index c)
  end.
  { destruct (negb (bool_decide (newHead = "undefined"))).
    - apply settles_bind. intros newTree. apply settles_bind. intros baseTree.
      apply settles_bind. intros _. apply settles_reinitialize.
    - apply settles_reinitialize. }
  unfold bind at 1.
  match goal with
  | |- context [match ?c l1 with _ => _ end] =>
      destruct (c l1) as [[u|e|] l2] eqn:Hl2; try discriminate
  end.
  intros [= _ <-]. cbn [index set_currentBranchName]. exact (Hc _ _ _ Hl2).
Qed.

(** X20.  A [snapshot] issued right after a [checkout] that returned
    throws 'Nothing to snapshot': [checkout] leaves an index in which
    every entry has its staged content equal to its snapshotted content,
    and the index update at the start of [snapshot] does not change that;
    no snapshot is stored and no head moves. *)
Theorem snapshot_after_checkout_throws cid_of fuel fuel' (name msg : string) (l l' : Loom) :
  checkout fuel name l = (Returned tt, l') ->
  snapshot cid_of fuel' msg l' = (Thrown (Error "Nothing to snapshot"), (update_index l').2)
  /\ node (snapshot cid_of fuel' msg l').2 = node l
  /\ branches (snapshot cid_of fuel' msg l').2 = branches l.
Proof.
  intros Hc.
  assert (Hs : snapshot cid_of fuel' msg l'
               = (Thrown (Error "Nothing to snapshot"), (update_index l').2)).
  { apply snapshot_without_staged.
    unfold update_index, modify. cbn [snd index set_index].
    apply index_update_settled. exact (checkout_settles_index fuel name l tt l' Hc). }
  rewrite Hs. split; [reflexivity|].
  pose proof (checkout_refs fuel name l) as [Hn [Hb _]].
  rewrite Hc in Hn, Hb. simpl in Hn, Hb.
  split; [exact Hn | exact Hb].
Qed.

Lemma snapshot_after_checkout_witness :
  exists l',
    checkout 20 "b" (History.divergent ParentsAbsent) = (Returned tt, l')
    /\ (snapshot label_cid 20 "m" l').1 = Thrown (Error "Nothing to snapshot").
Proof.
  destruct (checkout 20 "b" (History.divergent ParentsAbsent)) as [[[]| |] l'] eqn:E;
    try (vm_compute in E; discriminate E).
  exists l'. split; [reflexivity|].
  destruct (snapshot_after_checkout_throws label_cid 20 20 "b" "m"
              (History.divergent ParentsAbsent) l' E) as [Hs _].
  rewrite Hs. reflexivity.
Defined.


(** ** merge as a whole *)

(** X2.  No call of [merge] completes, whatever the loom, the branch name
    and the fuel; when it stops, the object store, the branch heads, the
    current branch and the working directory are those it started with,
    and the index is the one produced by the index update at its start. *)
Theorem merge_never_completes cid_of fuel (name : string) (l : Loom) :
  returned (merge cid_of fuel name l).1 = false
  /\ node (merge cid_of fuel name l).2 = node l
  /\ branches (merge cid_of fuel name l).2 = branches l
  /\ currentBranchName (merge cid_of fuel name l).2 = currentBranchName l
  /\ wdir (merge cid_of fuel name l).2 = wdir l
  /\ index (merge cid_of fuel name l).2 = index_update (index l) (wdir l).
Proof.
  destruct (merge_stops_after_index_update cid_of fuel name l) as [Hr Hl].
  rewrite Hl. repeat split. exact Hr.
Qed.
